(** * telegraf-operator: a shallow embedding of the admission webhook,
      the configuration assembler, the secret lifecycle, the class
      watcher and the secrets updater.

    Go strings are modelled as [string] (a byte string), Go maps as
    stdpp [gmap]s, Go's [error] as the inductive [error] below, and the
    collaborators that live in other packages (the Kubernetes API
    server, the TOML parser, [resource.ParseQuantity], [strconv.Quote],
    the class-data reader) as fields of the record [collaborators]. *)

From Stdlib Require Import Ascii String ZArith.
From stdpp Require Import base gmap strings list sorting.

Local Open Scope Z_scope.

(* ------------------------------------------------------------------ *)
(** ** Byte-string helpers (Go's [strings] and [strconv] packages)     *)

Definition char (n : nat) : string := String (ascii_of_nat n) EmptyString.

(** ["\n"] and the double quote character. *)
Definition nl : string := char 10.
Definition dq : string := char 34.

(** [strings.HasPrefix] *)
Definition HasPrefix (s p : string) : bool := String.prefix p s.

(** [strings.TrimPrefix] *)
Definition TrimPrefix (s p : string) : string :=
  if String.prefix p s
  then String.substring (String.length p) (String.length s - String.length p) s
  else s.

(** [strings.Contains] *)
Fixpoint Contains (s sub : string) : bool :=
  String.prefix sub s ||
  match s with
  | EmptyString => false
  | String _ s' => Contains s' sub
  end.

(** [strings.ReplaceAll s old new] for a non-empty [old]: scan from the
    left and replace every non-overlapping occurrence.  [skip] counts the
    characters of an occurrence that still have to be dropped. *)
Fixpoint replace_all_go (old new s : string) (skip : nat) : string :=
  match s with
  | EmptyString => EmptyString
  | String c s' =>
      match skip with
      | S k => replace_all_go old new s' k
      | O =>
          if String.prefix old s
          then new +:+ replace_all_go old new s' (String.length old - 1)
          else String c (replace_all_go old new s' 0)
      end
  end.

Definition ReplaceAll (s old new : string) : string := replace_all_go old new s 0.

(** [strings.Split s ","]: the separator is a single byte. *)
Fixpoint split_on (sep : ascii) (s : string) : list string :=
  match s with
  | EmptyString => [EmptyString]
  | String c s' =>
      let r := split_on sep s' in
      if Ascii.eqb c sep then EmptyString :: r
      else match r with
           | f :: fs => String c f :: fs
           | [] => [String c EmptyString]
           end
  end.

Definition Split_comma (s : string) : list string := split_on "," s.

(** [strings.Join] *)
Fixpoint Join (l : list string) (sep : string) : string :=
  match l with
  | [] => EmptyString
  | [x] => x
  | x :: l' => x +:+ sep +:+ Join l' sep
  end.

(** [sort.Strings]: Go compares strings byte by byte; [String.le] is that
    order and it is total, so the sorted result is unique. *)
Definition sort_strings (l : list string) : list string := merge_sort String.le l.

(** [strconv.ParseInt(s, 10, 0)]: an optional sign, then at least one
    decimal digit (no underscores with an explicit base), and the value
    must fit in a 64-bit [int]. *)
Definition digit_value (c : ascii) : option Z :=
  let n := Z.of_nat (nat_of_ascii c) in
  if (48 <=? n) && (n <=? 57) then Some (n - 48) else None.

Fixpoint parse_digits_acc (acc : Z) (s : string) : option Z :=
  match s with
  | EmptyString => Some acc
  | String c s' =>
      match digit_value c with
      | Some d => parse_digits_acc (acc * 10 + d) s'
      | None => None
      end
  end.

Definition parse_digits (s : string) : option Z :=
  match s with
  | EmptyString => None
  | _ => parse_digits_acc 0 s
  end.

Definition ParseInt (s : string) : option Z :=
  let '(neg, digits) :=
    match s with
    | String "+" r => (false, r)
    | String "-" r => (true, r)
    | _ => (false, s)
    end in
  match s with
  | EmptyString => None
  | _ =>
      match parse_digits digits with
      | None => None
      | Some u =>
          let v := if neg then - u else u in
          if (- 2 ^ 63 <=? v) && (v <? 2 ^ 63) then Some v else None
      end
  end.

(** [strconv.ParseBool] *)
Definition ParseBool (s : string) : option bool :=
  if existsb (String.eqb s) ["1"; "t"; "T"; "TRUE"; "true"; "True"] then Some true
  else if existsb (String.eqb s) ["0"; "f"; "F"; "FALSE"; "false"; "False"] then Some false
  else None.

(** [fmt.Sprintf("%d", n)] *)
Fixpoint nat_digits (fuel : nat) (n : Z) (acc : string) : string :=
  match fuel with
  | O => acc
  | S f =>
      let acc' := String (ascii_of_nat (Z.to_nat (48 + n mod 10))) acc in
      if n <? 10 then acc' else nat_digits f (n / 10) acc'
  end.

Definition fmt_d (n : Z) : string :=
  if n <? 0 then "-" +:+ nat_digits 64 (- n) EmptyString
  else nat_digits 64 n EmptyString.

(* ------------------------------------------------------------------ *)
(** ** Constants of sidecar.go                                          *)

Definition IstioSidecarAnnotation : string := "sidecar.istio.io/status".
Definition TelegrafAnnotationCommon : string := "telegraf.influxdata.com".
Definition TelegrafMetricsPort : string := "telegraf.influxdata.com/port".
Definition TelegrafMetricsPorts : string := "telegraf.influxdata.com/ports".
Definition TelegrafMetricsPath : string := "telegraf.influxdata.com/path".
Definition TelegrafMetricsScheme : string := "telegraf.influxdata.com/scheme".
Definition TelegrafMetricVersion : string := "telegraf.influxdata.com/metric-version".
Definition TelegrafInterval : string := "telegraf.influxdata.com/interval".
Definition TelegrafRawInput : string := "telegraf.influxdata.com/inputs".
Definition TelegrafEnableInternal : string := "telegraf.influxdata.com/internal".
Definition TelegrafClass : string := "telegraf.influxdata.com/class".
Definition TelegrafSecretEnv : string := "telegraf.influxdata.com/secret-env".
Definition TelegrafEnvFieldRefPrefix : string := "telegraf.influxdata.com/env-fieldref-".
Definition TelegrafEnvConfigMapKeyRefPrefix : string := "telegraf.influxdata.com/env-configmapkeyref-".
Definition TelegrafEnvSecretKeyRefPrefix : string := "telegraf.influxdata.com/env-secretkeyref-".
Definition TelegrafEnvLiteralPrefix : string := "telegraf.influxdata.com/env-literal-".
Definition TelegrafGlobalTagLiteralPrefix : string := "telegraf.influxdata.com/global-tag-literal-".
Definition TelegrafImage : string := "telegraf.influxdata.com/image".
Definition TelegrafRequestsCPU : string := "telegraf.influxdata.com/requests-cpu".
Definition TelegrafRequestsMemory : string := "telegraf.influxdata.com/requests-memory".
Definition TelegrafLimitsCPU : string := "telegraf.influxdata.com/limits-cpu".
Definition TelegrafLimitsMemory : string := "telegraf.influxdata.com/limits-memory".
Definition telegrafSecretInfix : string := "config".
Definition TelegrafSecretAnnotationKey : string := "app.kubernetes.io/managed-by".
Definition TelegrafSecretAnnotationValue : string := "telegraf-operator".
Definition TelegrafSecretDataKey : string := "telegraf.conf".
Definition TelegrafSecretLabelClassName : string := TelegrafClass.
Definition TelegrafSecretLabelPod : string := "telegraf.influxdata.com/pod".

(* ------------------------------------------------------------------ *)
(** ** Kubernetes objects (the fields the operator reads or writes)     *)

Inductive env_source :=
  | EnvValue (value : string)
  | EnvFieldRef (fieldPath : string)
  | EnvConfigMapKeyRef (name key : string)
  | EnvSecretKeyRef (name key : string).

Record EnvVar := mkEnvVar { ev_name : string; ev_source : env_source }.

(** A resource quantity as [resource.ParseQuantity] returns it. *)
Definition Quantity := string.

Record Container := mkContainer {
  c_name : string;
  c_image : string;
  c_command : list string;
  c_requests : list (string * Quantity);
  c_limits : list (string * Quantity);
  c_env : list EnvVar;
  c_env_from_secret : option string;
  c_mounts : list (string * string)
}.

Record Volume := mkVolume { v_name : string; v_secret_name : string }.

Record Pod := mkPod {
  p_name : string;
  p_generate_name : string;
  p_labels : gmap string string;
  p_annotations : gmap string string;
  p_containers : list Container;
  p_volumes : list Volume
}.

(** [corev1.Secret]; [s_data = None] is a nil [Data] map. *)
Record Secret := mkSecret {
  s_name : string;
  s_namespace : string;
  s_annotations : gmap string string;
  s_labels : gmap string string;
  s_type : string;
  s_data : option (gmap string string);
  s_string_data : gmap string string
}.

(** Go's [m[k]] on a [map[string]string]: the zero value when absent. *)
Definition get_or_empty (m : gmap string string) (k : string) : string :=
  default EmptyString (m !! k).

Definition data_len (d : option (gmap string string)) : nat :=
  match d with None => 0 | Some m => size m end.

Definition data_get (d : option (gmap string string)) (k : string) : string :=
  match d with None => EmptyString | Some m => get_or_empty m k end.

(* ------------------------------------------------------------------ *)
(** ** [ports]                                                          *)

(** [ports] gathers and merges unique ports from both
    [TelegrafMetricsPort] and [TelegrafMetricsPorts]. *)
Definition uniquePorts (ann : gmap string string) : gset string :=
  (match ann !! TelegrafMetricsPort with Some p => {[ p ]} | None => ∅ end)
  ∪ (match ann !! TelegrafMetricsPorts with
     | Some ps => list_to_set (Split_comma ps)
     | None => ∅
     end).

Definition ports (pod : Pod) : list string :=
  let u := uniquePorts (p_annotations pod) in
  if decide (size u = 0%nat) then []
  else sort_strings (elements u).

(* ------------------------------------------------------------------ *)
(** ** Errors and the error monad                                       *)

(** The reasons the Kubernetes API server reports. *)
Inductive api_error :=
  | AlreadyExists
  | NotFound
  | Upstream (msg : string).

Inductive error :=
  | ErrClassData (className : string)     (* [ioutil.ReadFile] failed *)
  | ErrQuantity (q : string)              (* [resource.ParseQuantity] failed *)
  | Errorf (msg : string)                 (* [fmt.Errorf] *)
  | ErrApi (reason : api_error)
  | NonFatal (err : error) (message : string).   (* [*nonFatalError] *)

Inductive result (A : Type) :=
  | Ok (a : A)
  | Err (e : error).
Arguments Ok {A} _.
Arguments Err {A} _.

Global Instance result_ret : MRet result := fun _ x => Ok x.
Global Instance result_bind : MBind result :=
  fun _ _ f m => match m with Ok a => f a | Err e => Err e end.

(* ------------------------------------------------------------------ *)
(** ** Collaborators from other packages                               *)

Inductive api_op := OpCreate | OpGet | OpUpdate | OpDelete.

Record collaborators := {
  (** [classDataHandler.getData]: the class file's contents, or an error *)
  getData : string -> option string;
  (** [toml.Parse] accepts the text *)
  toml_parse : string -> bool;
  (** [strconv.Quote], used by the [%q] verb *)
  Quote : string -> string;
  (** [resource.ParseQuantity] *)
  ParseQuantity : string -> option Quantity;
  (** [names.SimpleNameGenerator.GenerateName] *)
  GenerateName : string -> string;
  (** an upstream failure of an API call on the object (namespace, name) *)
  api_fault : api_op -> string * string -> option string
}.

Record sidecarHandler := {
  TelegrafDefaultClass : string;
  TelegrafImage_ : string;
  TelegrafWatchConfig : string;
  EnableDefaultInternalPlugin : bool;
  RequestsCPU : string;
  RequestsMemory : string;
  LimitsCPU : string;
  LimitsMemory : string;
  EnableIstioInjection : bool;
  IstioOutputClass : string;
  IstioTelegrafImage : string;
  IstioTelegrafWatchConfig : string
}.

(** Secrets stored by (namespace, name). *)
Abbreviation store := (gmap (string * string) Secret).

Section Operator.

Variable E : collaborators.

(* ------------------------------------------------------------------ *)
(** ** [assembleConf]                                                   *)

Definition key_le (a b : string * string) : Prop := String.le a.1 b.1.
Global Instance key_le_dec : RelDecision key_le :=
  fun a b => decide (String.le a.1 b.1).
Global Instance key_le_total : Total key_le.
Proof. intros a b. unfold key_le. apply (total String.le). Qed.

(** The [keyValue] pairs of the annotations under
    [TelegrafGlobalTagLiteralPrefix], sorted by key. *)
Definition globalTags (ann : gmap string string) : list (string * string) :=
  merge_sort key_le
    (omap (fun kv : string * string =>
             if HasPrefix kv.1 TelegrafGlobalTagLiteralPrefix
             then Some (TrimPrefix kv.1 TelegrafGlobalTagLiteralPrefix, kv.2)
             else None)
          (map_to_list ann)).

Definition global_tags_header : string := "[global_tags]" +:+ nl.

Definition globalTagsText (tags : list (string * string)) : string :=
  fold_left (fun acc kv => acc +:+ "  " +:+ kv.1 +:+ " = " +:+ Quote E kv.2 +:+ nl)
            tags global_tags_header.

(** One tag line as the loop of lines 692-694 prints it. *)
Definition global_tag_line (kv : string * string) : string :=
  "  " +:+ kv.1 +:+ " = " +:+ Quote E kv.2 +:+ nl.

(** Lines 690-705: inject the tags at the top of an existing
    "[global_tags]" section or create one. *)
Definition inject_global_tags (telegrafConf : string) (tags : list (string * string)) : string :=
  match tags with
  | [] => telegrafConf
  | _ =>
      let c := if Contains telegrafConf global_tags_header then telegrafConf
               else telegrafConf +:+ nl +:+ global_tags_header in
      ReplaceAll c global_tags_header (globalTagsText tags)
  end.

(** The scrape-input section (lines 628-661), from the sorted ports. *)
Definition prometheusSection (ann : gmap string string) (ps : list string) : result string :=
  let path := default "/metrics" (ann !! TelegrafMetricsPath) in
  let scheme := default "http" (ann !! TelegrafMetricsScheme) in
  let intervalConfig :=
    match ann !! TelegrafInterval with
    | Some intervalRaw => "interval = " +:+ dq +:+ intervalRaw +:+ dq
    | None => EmptyString
    end in
  versionConfig ←
    match ann !! TelegrafMetricVersion with
    | Some versionRaw =>
        match ParseInt versionRaw with
        | Some version => Ok ("metric_version = " +:+ fmt_d version)
        | None => Err (Errorf ("value supplied for " +:+ TelegrafMetricVersion
                               +:+ " must be a number, " +:+ versionRaw +:+ " given"))
        end
    | None => Ok EmptyString
    end;
  let urls := map (fun port => scheme +:+ "://127.0.0.1:" +:+ port +:+ path) ps in
  Ok ("[[inputs.prometheus]]" +:+ nl +:+ "  urls = [" +:+ dq
      +:+ Join urls (dq +:+ ", " +:+ dq) +:+ dq +:+ "]" +:+ nl
      +:+ "  " +:+ intervalConfig +:+ nl +:+ "  " +:+ versionConfig +:+ nl).

(** The pod-local sections and the class data, concatenated (lines
    628-678). *)
Definition concatText (h : sidecarHandler) (pod : Pod) (classData : string) : result string :=
  let ann := p_annotations pod in
  let ps := ports pod in
  conf1 ←
    match ps with
    | [] => Ok EmptyString
    | _ => block ← prometheusSection ann ps; Ok (EmptyString +:+ nl +:+ block)
    end;
  let enableInternal :=
    match ann !! TelegrafEnableInternal with
    | Some internalRaw =>
        match ParseBool internalRaw with
        | Some internal => internal
        | None => EnableDefaultInternalPlugin h
        end
    | None => EnableDefaultInternalPlugin h
    end in
  let conf2 := if enableInternal then conf1 +:+ nl +:+ "[[inputs.internal]]" +:+ nl else conf1 in
  let conf3 := match ann !! TelegrafRawInput with
               | Some inputsRaw => conf2 +:+ nl +:+ inputsRaw
               | None => conf2
               end in
  Ok (conf3 +:+ nl +:+ classData).

(** Everything [assembleConf] builds before the final parse. *)
Definition assembleText (h : sidecarHandler) (pod : Pod) (classData : string) : result string :=
  conf4 ← concatText h pod classData;
  Ok (inject_global_tags conf4 (globalTags (p_annotations pod))).

Definition assembleConf (h : sidecarHandler) (pod : Pod) (className : string) : result string :=
  match getData E className with
  | None => Err (NonFatal (ErrClassData className)
                  "telegraf-operator could not create sidecar container for unknown class")
  | Some classData =>
      telegrafConf ← assembleText h pod classData;
      if toml_parse E telegrafConf then Ok telegrafConf
      else Err (Errorf "resulting Telegraf is not a valid file")
  end.

(* ------------------------------------------------------------------ *)
(** ** Containers, volumes and secrets (sidecar.go)                     *)

(** [AnnotationsWithPrefix] *)
Definition AnnotationsWithPrefix (annotations : gmap string string) (prefix : string)
    : gmap string string :=
  list_to_map
    (omap (fun kv : string * string =>
             if HasPrefix kv.1 prefix then Some (TrimPrefix kv.1 prefix, kv.2) else None)
          (map_to_list annotations)).

(** [strings.SplitN(value, ".", 2)] when it yields two parts. *)
Fixpoint split_first_dot (s : string) : option (string * string) :=
  match s with
  | EmptyString => None
  | String c s' =>
      if Ascii.eqb c "." then Some (EmptyString, s')
      else match split_first_dot s' with
           | Some (a, b) => Some (String c a, b)
           | None => None
           end
  end.

(** [parseCustomOrDefaultQuantity]: the resource list is returned
    instead of being updated in place. *)
Definition parseCustomOrDefaultQuantity (res : list (string * Quantity)) (resourceName : string)
    (customQuantity defaultQuantity : string) : result (list (string * Quantity)) :=
  if String.eqb customQuantity EmptyString then Ok res
  else match ParseQuantity E customQuantity with
       | Some q => Ok (res ++ [(resourceName, q)])
       | None =>
           if String.eqb defaultQuantity EmptyString then Ok res
           else match ParseQuantity E defaultQuantity with
                | Some q => Ok (res ++ [(resourceName, q)])
                | None => Err (ErrQuantity defaultQuantity)
                end
       end.

Definition createTelegrafCommand (watchConfig : string) : list string :=
  ["telegraf"; "--config"; "/etc/telegraf/telegraf.conf"]
  ++ (if String.eqb watchConfig EmptyString then [] else ["--watch-config"; watchConfig]).

Definition nodeNameEnv : EnvVar := mkEnvVar "NODENAME" (EnvFieldRef "spec.nodeName").

Definition newContainer (h : sidecarHandler) (pod : Pod) (containerName : string)
    : result Container :=
  let ann := p_annotations pod in
  let telegrafImage := default (TelegrafImage_ h) (ann !! TelegrafImage) in
  let telegrafRequestsCPU := default (RequestsCPU h) (ann !! TelegrafRequestsCPU) in
  let telegrafRequestsMemory := default (RequestsMemory h) (ann !! TelegrafRequestsMemory) in
  let telegrafLimitsCPU := default (LimitsCPU h) (ann !! TelegrafLimitsCPU) in
  let telegrafLimitsMemory := default (LimitsMemory h) (ann !! TelegrafLimitsMemory) in
  requests ← parseCustomOrDefaultQuantity [] "cpu" telegrafRequestsCPU (RequestsCPU h);
  requests ← parseCustomOrDefaultQuantity requests "memory" telegrafRequestsMemory (RequestsMemory h);
  limits ← parseCustomOrDefaultQuantity [] "cpu" telegrafLimitsCPU (LimitsCPU h);
  limits ← parseCustomOrDefaultQuantity limits "memory" telegrafLimitsMemory (LimitsMemory h);
  let fieldRefs :=
    map (fun kv : string * string => mkEnvVar kv.1 (EnvFieldRef kv.2))
        (map_to_list (AnnotationsWithPrefix ann TelegrafEnvFieldRefPrefix)) in
  let literals :=
    map (fun kv : string * string => mkEnvVar kv.1 (EnvValue kv.2))
        (map_to_list (AnnotationsWithPrefix ann TelegrafEnvLiteralPrefix)) in
  let configMapKeyRefs :=
    omap (fun kv : string * string =>
            match split_first_dot kv.2 with
            | Some (n, k) => Some (mkEnvVar kv.1 (EnvConfigMapKeyRef n k))
            | None => None
            end)
         (map_to_list (AnnotationsWithPrefix ann TelegrafEnvConfigMapKeyRefPrefix)) in
  let secretKeyRefs :=
    omap (fun kv : string * string =>
            match split_first_dot kv.2 with
            | Some (n, k) => Some (mkEnvVar kv.1 (EnvSecretKeyRef n k))
            | None => None
            end)
         (map_to_list (AnnotationsWithPrefix ann TelegrafEnvSecretKeyRefPrefix)) in
  Ok {| c_name := containerName;
        c_image := telegrafImage;
        c_command := createTelegrafCommand (TelegrafWatchConfig h);
        c_requests := requests;
        c_limits := limits;
        c_env := nodeNameEnv :: fieldRefs ++ literals ++ configMapKeyRefs ++ secretKeyRefs;
        c_env_from_secret := ann !! TelegrafSecretEnv;
        c_mounts := [(containerName +:+ "-config", "/etc/telegraf")] |}.

Definition newIstioContainer (h : sidecarHandler) (pod : Pod) (containerName : string)
    : result Container :=
  let parse q := match ParseQuantity E q with Some v => Ok v | None => Err (ErrQuantity q) end in
  parsedRequestsCPU ← parse (RequestsCPU h);
  parsedRequestsMemory ← parse (RequestsMemory h);
  parsedLimitsCPU ← parse (LimitsCPU h);
  parsedLimitsMemory ← parse (LimitsMemory h);
  let telegrafImage :=
    if String.eqb (IstioTelegrafImage h) EmptyString then TelegrafImage_ h
    else IstioTelegrafImage h in
  Ok {| c_name := containerName;
        c_image := telegrafImage;
        c_command := createTelegrafCommand (IstioTelegrafWatchConfig h);
        c_requests := [("cpu", parsedRequestsCPU); ("memory", parsedRequestsMemory)];
        c_limits := [("cpu", parsedLimitsCPU); ("memory", parsedLimitsMemory)];
        c_env := [nodeNameEnv];
        c_env_from_secret := None;
        c_mounts := [(containerName +:+ "-config", "/etc/telegraf")] |}.

Definition secretName (containerName name : string) : string :=
  containerName +:+ "-" +:+ telegrafSecretInfix +:+ "-" +:+ name.

Definition newSecret (pod : Pod) (className name namespace containerName telegrafConf : string)
    : Secret :=
  {| s_name := secretName containerName name;
     s_namespace := namespace;
     s_annotations := {[ TelegrafSecretAnnotationKey := TelegrafSecretAnnotationValue ]};
     s_labels := <[ TelegrafSecretLabelClassName := className ]>
                   {[ TelegrafSecretLabelPod := name ]};
     s_type := "Opaque";
     s_data := None;
     s_string_data := {[ TelegrafSecretDataKey := telegrafConf ]} |}.

Definition newVolume (name containerName : string) : Volume :=
  mkVolume (containerName +:+ "-config") (secretName containerName name).

Definition telegrafSecretNames (name : string) : list string :=
  [secretName "telegraf" name; secretName "telegraf-istio" name].

(** [validateRequestsAndLimits]: each non-empty default quantity must
    parse; the first one that does not is the error. *)
Fixpoint validate_quantities (values : list string) : result unit :=
  match values with
  | [] => Ok tt
  | value :: rest =>
      if String.eqb value EmptyString then validate_quantities rest
      else match ParseQuantity E value with
           | Some _ => validate_quantities rest
           | None => Err (ErrQuantity value)
           end
  end.

Definition validateRequestsAndLimits (h : sidecarHandler) : result unit :=
  validate_quantities [RequestsCPU h; RequestsMemory h; LimitsCPU h; LimitsMemory h].

(** An entry of [ioutil.ReadDir] on the classes directory: [de_stat] is
    [None] when [os.Stat] fails and [Some regular] otherwise; [de_read]
    is the result of [ioutil.ReadFile]. *)
Record dirEntry := mkDirEntry {
  de_name : string;
  de_stat : option bool;
  de_read : option string
}.

(** [classDataHandler.validateClassData]; [files] is [None] when
    [ioutil.ReadDir] fails, which leaves the Go slice nil. *)
Definition validateClassData (files : option (list dirEntry)) : result unit :=
  let '(classDataValid, filesAvailable) :=
    fold_left (fun acc file =>
                 let '(valid, available) := acc in
                 match de_stat file with
                 | Some true =>
                     match de_read file with
                     | Some data => (valid && toml_parse E data, true)
                     | None => (valid, available)
                     end
                 | _ => (valid, available)
                 end) (default [] files) (true, false) in
  if negb classDataValid then Err (Errorf "class data contains errors ; unable to continue")
  else if negb filesAvailable then Err (Errorf "no class data found ; unable to continue")
  else Ok tt.

(* ------------------------------------------------------------------ *)
(** ** The decision engine: gates and [addSidecars]                     *)

Definition istioInputsConf : string :=
  nl +:+ "  [[inputs.prometheus]]" +:+ nl
  +:+ "    urls = [" +:+ dq +:+ "http://127.0.0.1:15090/stats/prometheus" +:+ dq +:+ "]" +:+ nl.

Definition podHasContainerName (pod : Pod) (name : string) : bool :=
  existsb (fun c => String.eqb (c_name c) name) (p_containers pod).

Definition shouldAddTelegrafSidecar (pod : Pod) : bool :=
  if podHasContainerName pod "telegraf" then false
  else existsb (fun kv : string * string => Contains kv.1 TelegrafAnnotationCommon)
               (map_to_list (p_annotations pod)).

Definition shouldAddIstioTelegrafSidecar (h : sidecarHandler) (pod : Pod) : bool :=
  if podHasContainerName pod "telegraf-istio" then false
  else if negb (EnableIstioInjection h) then false
  else existsb (fun kv : string * string => String.eqb kv.1 IstioSidecarAnnotation)
               (map_to_list (p_annotations pod)).

Definition skip (h : sidecarHandler) (pod : Pod) : bool :=
  negb (shouldAddTelegrafSidecar pod) && negb (shouldAddIstioTelegrafSidecar h pod).

(** The [*corev1.Pod] is mutated in place by the Go code, also on the
    error paths; the functions below return the pod as it is afterwards
    together with the result.  [secrets] is [result.secrets] of the
    [sidecarHandlerResponse]. *)
Definition addContainerAndSecret (secrets : list Secret) (pod : Pod) (container : Container)
    (className name namespace telegrafConf : string) : Pod * result (list Secret) :=
  let pod' := {| p_name := p_name pod;
                 p_generate_name := p_generate_name pod;
                 p_labels := p_labels pod;
                 p_annotations := p_annotations pod;
                 p_containers := p_containers pod ++ [container];
                 p_volumes := p_volumes pod ++ [newVolume name (c_name container)] |} in
  (pod', Ok (secrets ++ [newSecret pod' className name namespace (c_name container) telegrafConf])).

Definition addTelegrafSidecar (h : sidecarHandler) (secrets : list Secret) (pod : Pod)
    (name namespace containerName : string) : Pod * result (list Secret) :=
  let className := default (TelegrafDefaultClass h) (p_annotations pod !! TelegrafClass) in
  match assembleConf h pod className with
  | Err e => (pod, Err (NonFatal e
                 "telegraf-operator could not create sidecar container due to error in class data"))
  | Ok telegrafConf =>
      match newContainer h pod containerName with
      | Err e => (pod, Err e)
      | Ok container =>
          addContainerAndSecret secrets pod container className name namespace telegrafConf
      end
  end.

Definition addIstioTelegrafSidecar (h : sidecarHandler) (secrets : list Secret) (pod : Pod)
    (name namespace : string) : Pod * result (list Secret) :=
  match getData E (IstioOutputClass h) with
  | None => (pod, Err (NonFatal (ErrClassData (IstioOutputClass h))
                   "telegraf-operator could not create sidecar container for istio class"))
  | Some classData =>
      let telegrafConf := istioInputsConf +:+ nl +:+ nl +:+ classData in
      match newIstioContainer h pod "telegraf-istio" with
      | Err e => (pod, Err e)
      | Ok container =>
          addContainerAndSecret secrets pod container (IstioOutputClass h) name namespace telegrafConf
      end
  end.

Definition addSidecars (h : sidecarHandler) (pod : Pod) (name namespace : string)
    : Pod * result (list Secret) :=
  let '(pod1, r1) :=
    if shouldAddTelegrafSidecar pod
    then addTelegrafSidecar h [] pod name namespace "telegraf"
    else (pod, Ok []) in
  match r1 with
  | Err e => (pod1, Err e)
  | Ok secrets =>
      if shouldAddIstioTelegrafSidecar h pod1
      then addIstioTelegrafSidecar h secrets pod1 name namespace
      else (pod1, Ok secrets)
  end.

(* ------------------------------------------------------------------ *)
(** ** The Kubernetes API server, as seen by [client.Client]            *)

Definition secret_key (s : Secret) : string * string := (s_namespace s, s_name s).

(** What the API server persists: [StringData] is merged into [Data],
    overriding keys of the same name. *)
Definition persist (s : Secret) : Secret :=
  let d := s_string_data s ∪ default ∅ (s_data s) in
  {| s_name := s_name s; s_namespace := s_namespace s;
     s_annotations := s_annotations s; s_labels := s_labels s;
     s_type := s_type s;
     s_data := if decide (d = ∅) then None else Some d;
     s_string_data := ∅ |}.

Definition client_create (st : store) (s : Secret) : result unit * store :=
  match api_fault E OpCreate (secret_key s) with
  | Some m => (Err (ErrApi (Upstream m)), st)
  | None =>
      match st !! secret_key s with
      | Some _ => (Err (ErrApi AlreadyExists), st)
      | None => (Ok tt, <[ secret_key s := persist s ]> st)
      end
  end.

Definition client_get (st : store) (k : string * string) : result Secret :=
  match api_fault E OpGet k with
  | Some m => Err (ErrApi (Upstream m))
  | None => match st !! k with Some s => Ok s | None => Err (ErrApi NotFound) end
  end.

Definition client_update (st : store) (s : Secret) : result unit * store :=
  match api_fault E OpUpdate (secret_key s) with
  | Some m => (Err (ErrApi (Upstream m)), st)
  | None =>
      match st !! secret_key s with
      | Some _ => (Ok tt, <[ secret_key s := persist s ]> st)
      | None => (Err (ErrApi NotFound), st)
      end
  end.

Definition client_delete (st : store) (k : string * string) : result unit * store :=
  match api_fault E OpDelete k with
  | Some m => (Err (ErrApi (Upstream m)), st)
  | None =>
      match st !! k with
      | Some _ => (Ok tt, delete k st)
      | None => (Err (ErrApi NotFound), st)
      end
  end.

(* ------------------------------------------------------------------ *)
(** ** The secret lifecycle (handler.go)                                *)

Definition isSecretManagedByTelegrafOperator (RequireAnnotationsForSecret : bool)
    (secret : Secret) : bool :=
  if negb (String.eqb (s_type secret) "Opaque") then false
  else if negb (Nat.eqb (data_len (s_data secret)) 1)
          || Nat.eqb (String.length (data_get (s_data secret) TelegrafSecretDataKey)) 0
  then false
  else if RequireAnnotationsForSecret
          && negb (String.eqb (get_or_empty (s_annotations secret) TelegrafSecretAnnotationKey)
                              TelegrafSecretAnnotationValue)
  then false
  else true.

Definition notManagedError (secret : Secret) : error :=
  Errorf ("unable to update existing secret " +:+ s_name secret +:+ " in namespace "
          +:+ s_namespace secret +:+ " as it is not managed by telegraf-operator").

(** One iteration of the loop of [createOrUpdateSecrets]. *)
Definition createOrUpdateSecret (require : bool) (st : store) (secret : Secret)
    : result unit * store :=
  match client_create st secret with
  | (Err (ErrApi AlreadyExists), st1) =>
      match client_get st1 (secret_key secret) with
      | Err e => (Err e, st1)
      | Ok existingSecret =>
          if negb (isSecretManagedByTelegrafOperator require existingSecret)
          then (Err (notManagedError secret), st1)
          else client_update st1 secret
      end
  | (Err e, st1) => (Err e, st1)
  | (Ok _, st1) => (Ok tt, st1)
  end.

Fixpoint createOrUpdateSecrets (require : bool) (st : store) (secrets : list Secret)
    : result unit * store :=
  match secrets with
  | [] => (Ok tt, st)
  | secret :: rest =>
      match createOrUpdateSecret require st secret with
      | (Ok _, st1) => createOrUpdateSecrets require st1 rest
      | (Err e, st1) => (Err e, st1)
      end
  end.

(* ------------------------------------------------------------------ *)
(** ** The admission handler                                            *)

Inductive Operation := Create | Update | Delete | Connect.

Record Request := mkRequest {
  req_operation : Operation;
  req_name : string;
  req_namespace : string;
  (** the decoded pod, [None] when [decoder.Decode] fails *)
  req_pod : option Pod
}.

Inductive Response :=
  | Allowed (message : string)
  | Errored (code : Z) (e : error)
  | PatchResponse (patched : Pod).

Record podInjector := {
  SidecarHandler : sidecarHandler;
  RequireAnnotationsForSecret : bool
}.

Definition deleteSecrets (st : store) (namespace : string) (names : list string) : bool * store :=
  fold_left (fun acc name =>
               let '(failed, st0) := acc in
               match client_delete st0 (namespace, name) with
               | (Err _, st1) => (true, st1)
               | (Ok _, st1) => (failed, st1)
               end) names (false, st).

Definition Handle (a : podInjector) (st : store) (req : Request) : Response * store :=
  let h := SidecarHandler a in
  match req_operation req with
  | Delete =>
      let '(deleteFailed, st1) := deleteSecrets st (req_namespace req) (telegrafSecretNames (req_name req)) in
      if deleteFailed then (Allowed "telegraf-injector couldn't delete one or more secrets", st1)
      else (Allowed "telegraf-injector doesn't block pod deletions", st1)
  | op =>
      match req_pod req with
      | None => (Errored 400 (Errorf "unable to decode the pod"), st)
      | Some pod0 =>
          if skip h pod0 then (Allowed "telegraf-injector has no power over this pod", st)
          else
            let pod := if String.eqb (p_name pod0) EmptyString
                       then {| p_name := GenerateName E (p_generate_name pod0);
                               p_generate_name := p_generate_name pod0;
                               p_labels := p_labels pod0;
                               p_annotations := p_annotations pod0;
                               p_containers := p_containers pod0;
                               p_volumes := p_volumes pod0 |}
                       else pod0 in
            match addSidecars h pod (p_name pod) (req_namespace req) with
            | (_, Err (NonFatal err message)) => (Allowed message, st)
            | (_, Err e) => (Errored 400 e, st)
            | (pod', Ok secrets) =>
                let '(r, st1) :=
                  match op with
                  | Create | Update => createOrUpdateSecrets (RequireAnnotationsForSecret a) st secrets
                  | _ => (Ok tt, st)
                  end in
                match r with
                | Err e => (Errored 400 e, st1)
                | Ok _ => (PatchResponse pod', st1)
                end
            end
      end
  end.

End Operator.

(* ------------------------------------------------------------------ *)
(** ** The secrets updater (updater.go)                                 *)

Module Updater.

(** [secretsUpdater] with the Kubernetes clientset calls it makes. *)
Record secretsUpdater := {
  (** the [assembleConf] field: [sidecar.assembleConf] *)
  assembleConf : Pod -> string -> result string;
  (** [Secrets(namespace).List] with the class-name label selector *)
  listSecrets : string -> result (list Secret);
  (** [Pods(namespace).Get] *)
  getPod : string -> string -> result Pod;
  (** an upstream failure of [Secrets(namespace).Update] *)
  update_fault : Secret -> option string
}.

(** What one iteration of the loop does with a listed secret. *)
Inductive step :=
  | StepErr (e : error)
  | StepPanic                 (* assignment to entry in nil map *)
  | StepSkip                  (* "not updating secret" *)
  | StepUpdate (s : Secret).  (* [secretsClient.Update] is called with [s] *)

Definition with_data (secret : Secret) (d : gmap string string) : Secret :=
  {| s_name := s_name secret; s_namespace := s_namespace secret;
     s_annotations := s_annotations secret; s_labels := s_labels secret;
     s_type := s_type secret; s_data := Some d;
     s_string_data := s_string_data secret |}.

Definition updateSecret (u : secretsUpdater) (namespace : string) (secret : Secret) : step :=
  let podName := get_or_empty (s_labels secret) TelegrafSecretLabelPod in
  let className := get_or_empty (s_labels secret) TelegrafSecretLabelClassName in
  if String.eqb podName EmptyString || String.eqb className EmptyString
  then StepErr (Errorf ("unable to get pod and class name for secret " +:+ s_name secret))
  else
    match getPod u namespace podName with
    | Err e => StepErr e
    | Ok pod =>
        match assembleConf u pod className with
        | Err e => StepErr e
        | Ok telegrafConf =>
            if negb (String.eqb (data_get (s_data secret) TelegrafSecretDataKey) telegrafConf)
            then match s_data secret with
                 | None => StepPanic
                 | Some d => StepUpdate (with_data secret (<[ TelegrafSecretDataKey := telegrafConf ]> d))
                 end
            else StepSkip
        end
    end.

Inductive outcome := PassOk | PassErr (e : error) | PassPanic.

(** The loop of [updateSecretsInNamespace]: the secrets written with
    [Update], in order, and how the pass ended. *)
Fixpoint updateSecrets (u : secretsUpdater) (namespace : string) (secrets : list Secret)
    : list Secret * outcome :=
  match secrets with
  | [] => ([], PassOk)
  | secret :: rest =>
      match updateSecret u namespace secret with
      | StepErr e => ([], PassErr e)
      | StepPanic => ([], PassPanic)
      | StepSkip => updateSecrets u namespace rest
      | StepUpdate s =>
          match update_fault u s with
          | Some m => ([s], PassErr (ErrApi (Upstream m)))
          | None => let '(w, r) := updateSecrets u namespace rest in (s :: w, r)
          end
      end
  end.

(** The secret an iteration hands to [secretsClient.Update], if any. *)
Definition written (u : secretsUpdater) (namespace : string) (secret : Secret) : option Secret :=
  match updateSecret u namespace secret with
  | StepUpdate s => Some s
  | _ => None
  end.

Definition updateSecretsInNamespace (u : secretsUpdater) (namespace : string)
    : list Secret * outcome :=
  match listSecrets u namespace with
  | Err e => ([], PassErr e)
  | Ok secrets => updateSecrets u namespace secrets
  end.

(** The loop of [onChange] over the listed namespaces: the first
    namespace whose pass does not end normally ends the loop (an error
    is logged and [onChange] returns; a panic ends the process). *)
Fixpoint updateNamespaces (u : secretsUpdater) (namespaces : list string)
    : list Secret * outcome :=
  match namespaces with
  | [] => ([], PassOk)
  | namespace :: rest =>
      let '(w, r) := updateSecretsInNamespace u namespace in
      match r with
      | PassOk => let '(w', r') := updateNamespaces u rest in (w ++ w', r')
      | _ => (w, r)
      end
  end.

(** [onChange]; [namespaces] is the result of [Namespaces().List]. *)
Definition onChange (u : secretsUpdater) (namespaces : result (list string))
    : list Secret * outcome :=
  match namespaces with
  | Err e => ([], PassErr e)
  | Ok nss => updateNamespaces u nss
  end.

End Updater.

(* ------------------------------------------------------------------ *)
(** ** The class watcher (watcher.go)                                   *)

Module Watcher.

(** Time is discrete.  [monitorForChanges] increments [eventCount] and
    sends one signal on [eventChannel] at the arrival time of each raw
    notification; [arrivals] lists those times in order.  [batchChanges]
    receives the signals in order, each no earlier than its arrival and
    no earlier than the end of its previous iteration.  [eventDelay] is
    the sleep, [callbackTime] the time [onChange] runs. *)

Definition eventCount (arrivals : list nat) (t : nat) : nat :=
  length (List.filter (fun a => Nat.leb a t) arrivals).

Record batcher := mkBatcher {
  free_at : nat;              (* when the worker next receives *)
  previousEventCount : nat;
  callbacks : list nat        (* the times [onChange] was invoked *)
}.

Definition batch_step (count : nat -> nat) (eventDelay callbackTime : nat)
    (b : batcher) (arrival : nat) : batcher :=
  let received := Nat.max (free_at b) arrival in
  let currentEventCount := count received in
  if Nat.eqb currentEventCount (previousEventCount b)
  then mkBatcher received (previousEventCount b) (callbacks b)
  else
    let woke := (received + eventDelay)%nat in
    let currentEventCount' := count woke in
    mkBatcher (woke + callbackTime)%nat currentEventCount' (callbacks b ++ [woke]).

Definition batchChanges (eventDelay callbackTime : nat) (arrivals : list nat) : batcher :=
  fold_left (batch_step (eventCount arrivals) eventDelay callbackTime) arrivals
            (mkBatcher 0 0 []).

(** The invariant of the worker loop used below: every notification in
    [done] is followed by a callback, and the counter the worker last
    recorded is the one read at its last callback. *)
Definition covered (arrivals : list nat) (b : batcher) (done : list nat) : Prop :=
  ((callbacks b = [] /\ previousEventCount b = 0%nat) \/
   exists w, In w (callbacks b) /\ previousEventCount b = eventCount arrivals w) /\
  forall a, In a done -> exists w, In w (callbacks b) /\ (a <= w)%nat.

End Watcher.

Definition pod_with_annotations (ann : gmap string string) : Pod :=
  mkPod EmptyString EmptyString ∅ ann [] [].

(* ------------------------------------------------------------------ *)
(** ** A concrete configuration, used to run the functions              *)

Module Example.

(** [strconv.Quote] on strings without quotes, backslashes and control
    characters. *)
Definition quote_plain (s : string) : string := dq +:+ s +:+ dq.

(** A stand-in for [toml.Parse] that rejects a text containing "= =". *)
Definition toml_stub (s : string) : bool := negb (Contains s "= =").

Definition collab : collaborators := {|
  getData := fun c => if String.eqb c "default" then Some ("[[outputs.file]]" +:+ nl) else None;
  toml_parse := toml_stub;
  Quote := quote_plain;
  ParseQuantity := fun q => if String.eqb q EmptyString then None else Some q;
  GenerateName := fun b => b +:+ "abcde";
  api_fault := fun _ _ => None |}.

Definition handler : sidecarHandler := {|
  TelegrafDefaultClass := "default"; TelegrafImage_ := "telegraf:1.20";
  TelegrafWatchConfig := EmptyString; EnableDefaultInternalPlugin := false;
  RequestsCPU := "10m"; RequestsMemory := "10Mi"; LimitsCPU := "200m"; LimitsMemory := "200Mi";
  EnableIstioInjection := true; IstioOutputClass := "default";
  IstioTelegrafImage := EmptyString; IstioTelegrafWatchConfig := EmptyString |}.

Definition telegraf_container : Container :=
  mkContainer "telegraf" "telegraf:1.20" [] [] [] [] None [].

(** A secret of another workload, stored under the name the operator wants. *)
Definition foreign_secret : Secret :=
  mkSecret "telegraf-config-app" "ns" ∅ ∅ "kubernetes.io/tls"
           (Some (<[ "tls.key" := "k" ]> {[ "tls.crt" := "c" ]})) ∅.

Definition pending_secret : Secret :=
  newSecret (pod_with_annotations ∅) "default" "app" "ns" "telegraf" ("[agent]" +:+ nl).

Definition empty_conf_secret : Secret :=
  mkSecret "telegraf-config-app" "ns" ∅ ∅ "Opaque" (Some {[ TelegrafSecretDataKey := EmptyString ]}) ∅.

(** A pod with one literal global tag whose raw input mentions the
    section header in a comment, and class data that opens the
    section. *)
Definition global_tags_pod : Pod :=
  pod_with_annotations
    (<[ TelegrafGlobalTagLiteralPrefix +:+ "env" := "prod" ]>
       {[ TelegrafRawInput := "# " +:+ global_tags_header ]}).

Definition global_tags_class : string :=
  global_tags_header +:+ "  dc = " +:+ dq +:+ "us-1" +:+ dq +:+ nl.

(** A secrets updater over the example class data, where every pod
    lookup finds a pod without annotations. *)
Definition updater : Updater.secretsUpdater := {|
  Updater.assembleConf := fun pod className => assembleConf collab handler pod className;
  Updater.listSecrets := fun _ => Ok [];
  Updater.getPod := fun _ podName => Ok (mkPod podName EmptyString ∅ ∅ [] []);
  Updater.update_fault := fun _ => None |}.

(** A managed secret whose stored text is stale. *)
Definition stale_secret : Secret :=
  mkSecret "telegraf-config-app" "ns" ∅
           (<[ TelegrafSecretLabelPod := "app" ]> {[ TelegrafSecretLabelClassName := "default" ]})
           "Opaque" (Some {[ TelegrafSecretDataKey := "[agent]" +:+ nl ]}) ∅.

(** A handler as [handler] whose default CPU request is left empty. *)
Definition handler_no_cpu : sidecarHandler := {|
  TelegrafDefaultClass := "default"; TelegrafImage_ := "telegraf:1.20";
  TelegrafWatchConfig := EmptyString; EnableDefaultInternalPlugin := false;
  RequestsCPU := EmptyString; RequestsMemory := "10Mi"; LimitsCPU := "200m"; LimitsMemory := "200Mi";
  EnableIstioInjection := true; IstioOutputClass := "default";
  IstioTelegrafImage := EmptyString; IstioTelegrafWatchConfig := EmptyString |}.

(** A pod that only carries the istio status annotation. *)
Definition istio_pod : Pod :=
  mkPod "app" EmptyString ∅ {[ IstioSidecarAnnotation := "{}" ]} [] [].

(** A pod with a metrics port, which opens the primary gate. *)
Definition port_pod : Pod :=
  mkPod "app" EmptyString ∅ {[ TelegrafMetricsPort := "6060" ]} [] [].

(** A pod with one annotation of each environment kind, and an empty
    CPU request. *)
Definition env_pod : Pod :=
  mkPod "app" EmptyString ∅
    (<[ TelegrafEnvLiteralPrefix +:+ "STAGE" := "prod" ]>
     (<[ TelegrafEnvConfigMapKeyRefPrefix +:+ "REGION" := "cm.region" ]>
      (<[ TelegrafRequestsCPU := EmptyString ]>
       {[ TelegrafMetricsPort := "6060" ]}))) [] [].

(** An updater whose secret listing fails in namespace "bad". *)
Definition failing_updater : Updater.secretsUpdater := {|
  Updater.assembleConf := fun pod className => assembleConf collab handler pod className;
  Updater.listSecrets := fun ns => if String.eqb ns "bad" then Err (Errorf "forbidden") else Ok [];
  Updater.getPod := fun _ podName => Ok (mkPod podName EmptyString ∅ ∅ [] []);
  Updater.update_fault := fun _ => None |}.

(** An updater that lists [stale_secret] in every namespace. *)
Definition stale_updater : Updater.secretsUpdater := {|
  Updater.assembleConf := fun pod className => assembleConf collab handler pod className;
  Updater.listSecrets := fun _ => Ok [stale_secret];
  Updater.getPod := fun _ podName => Ok (mkPod podName EmptyString ∅ ∅ [] []);
  Updater.update_fault := fun _ => None |}.

End Example.

Definition invalid_raw_pod : Pod :=
  mkPod "app" EmptyString ∅ {[ TelegrafRawInput := "[[inputs.cpu]]" +:+ nl +:+ "  x = = 1" ]} [] [].

Definition bad_version_pod : Pod :=
  mkPod "app" EmptyString ∅
    (<[ TelegrafMetricVersion := "two" ]> {[ TelegrafMetricsPort := "8080" ]}) [] [].

(** [pod'] is [pod] with the containers [cs] and some volumes appended,
    every other field unchanged. *)
Definition appended (pod pod' : Pod) (cs : list Container) : Prop :=
  p_name pod' = p_name pod /\ p_generate_name pod' = p_generate_name pod /\
  p_labels pod' = p_labels pod /\ p_annotations pod' = p_annotations pod /\
  p_containers pod' = p_containers pod ++ cs /\
  exists vs, p_volumes pod' = p_volumes pod ++ vs.

(** "Managed" in the words of the specification: type Opaque, data with
    exactly the one expected key, and, when annotations are required,
    the managed-by annotation. *)
Definition managed_per_spec (require : bool) (e : Secret) : Prop :=
  s_type e = "Opaque" /\
  (exists d, s_data e = Some d /\ size d = 1%nat /\ is_Some (d !! TelegrafSecretDataKey)) /\
  (require = true -> s_annotations e !! TelegrafSecretAnnotationKey = Some TelegrafSecretAnnotationValue).

Ltac count_solve :=
  cbn [Watcher.free_at Watcher.previousEventCount]; unfold Watcher.eventCount; simpl;
  repeat match goal with
         | |- context [Nat.max ?x ?y] => destruct (Nat.max_spec x y) as [[? ->]|[? ->]]
         | |- context [Nat.leb ?x ?y] => destruct (Nat.leb_spec x y)
         end; simpl; lia.

(** [strings.Replace(s, old, new, 1)]: substitution into the first
    occurrence only, the reading of the global-tag injection that the
    specification gives. *)
Fixpoint ReplaceFirst_spec (old new s : string) : string :=
  match s with
  | EmptyString => EmptyString
  | String c s' =>
      if String.prefix old s
      then new +:+ String.substring (String.length old) (String.length s - String.length old) s
      else String c (ReplaceFirst_spec old new s')
  end.

(** A secret returned by [addSidecars] for the pod [pod] (as patched)
    named [name] in [namespace]: it lives in that namespace under one
    of the two sidecar names, carries the pod label, is mounted by a
    volume of the pod, and is managed once the API server stores it. *)
Definition sidecar_secret (pod : Pod) (name namespace : string) (s : Secret) : Prop :=
  s_namespace s = namespace /\ s_name s ∈ telegrafSecretNames name /\
  get_or_empty (s_labels s) TelegrafSecretLabelPod = name /\
  (exists v, v ∈ p_volumes pod /\ v_secret_name v = s_name s) /\
  (forall require, isSecretManagedByTelegrafOperator require (persist s) = true).

(* ================================================================== *)
(** * Properties                                                       *)

(** The raw port values, as the two annotations supply them. *)
Definition port_inputs (ann : gmap string string) : list string :=
  match ann !! TelegrafMetricsPort with Some p => [p] | None => [] end
  ++ match ann !! TelegrafMetricsPorts with Some ps => Split_comma ps | None => [] end.

(* ------------------------------------------------------------------ *)
(** ** [ports]                                                          *)

Lemma elem_of_uniquePorts (ann : gmap string string) x :
  x ∈ uniquePorts ann <-> x ∈ port_inputs ann.
Proof.
  unfold uniquePorts, port_inputs.
  destruct (ann !! TelegrafMetricsPort), (ann !! TelegrafMetricsPorts);
    rewrite ?elem_of_app, ?elem_of_list_to_set; set_solver.
Qed.

Lemma ports_perm (pod : Pod) :
  ports pod ≡ₚ elements (uniquePorts (p_annotations pod)).
Proof.
  unfold ports. case_decide as Hsz.
  - apply size_empty_inv in Hsz. apply leibniz_equiv in Hsz. rewrite Hsz.
    rewrite elements_empty. done.
  - unfold sort_strings. apply merge_sort_Permutation.
Qed.

Lemma ports_sorted (pod : Pod) : Sorted String.le (ports pod).
Proof.
  unfold ports. case_decide; [constructor |]. unfold sort_strings. apply (Sorted_merge_sort String.le).
Qed.

(** Go's map iteration order does not matter: sorting any enumeration
    of the set of unique ports gives [ports]. *)
Lemma ports_iteration_order (pod : Pod) (l : list string) :
  l ≡ₚ elements (uniquePorts (p_annotations pod)) -> sort_strings l = ports pod.
Proof.
  intros Hl. apply (Sorted_unique String.le).
  - unfold sort_strings. apply (Sorted_merge_sort String.le).
  - apply ports_sorted.
  - unfold sort_strings. rewrite merge_sort_Permutation, Hl, ports_perm. done.
Qed.

(** C6: [ports] returns the merged port values of the singular and the
    comma-separated plural annotation, without duplicates and sorted
    byte-wise; two pods whose annotations supply the same port values,
    in whatever order and with whatever repetition, get the same list;
    plural "9999,6060,6060" with singular "6060" gives ["6060"; "9999"]. *)
Theorem ports_merged_sorted_unique (p q : Pod) :
  (Sorted String.le (ports p) /\ NoDup (ports p) /\
   (forall x, x ∈ ports p <-> x ∈ port_inputs (p_annotations p)))
  /\ ((forall x, x ∈ port_inputs (p_annotations p) <-> x ∈ port_inputs (p_annotations q)) ->
      ports p = ports q)
  /\ ports (pod_with_annotations
              (<[ TelegrafMetricsPorts := "9999,6060,6060" ]> {[ TelegrafMetricsPort := "6060" ]}))
     = ["6060"; "9999"].
Proof.
  split; [split; [apply ports_sorted | split] | split].
  - rewrite ports_perm. apply NoDup_elements.
  - intros x. rewrite ports_perm, elem_of_elements. apply elem_of_uniquePorts.
  - intros Hin. unfold ports.
    assert (Hu : uniquePorts (p_annotations p) = uniquePorts (p_annotations q)).
    { apply set_eq. intros x. rewrite !elem_of_uniquePorts. apply Hin. }
    rewrite Hu. reflexivity.
  - vm_compute. reflexivity.
Qed.

Lemma ports_merged_sorted_unique_witness :
  ports (pod_with_annotations
           (<[ TelegrafMetricsPorts := "9999,6060,6060" ]> {[ TelegrafMetricsPort := "6060" ]}))
  = ports (pod_with_annotations {[ TelegrafMetricsPorts := "6060,9999,9999" ]}).
Proof.
  apply (proj1 (proj2 (ports_merged_sorted_unique _ _))).
  intros x.
  assert (H1 : port_inputs (p_annotations (pod_with_annotations
           (<[ TelegrafMetricsPorts := "9999,6060,6060" ]> {[ TelegrafMetricsPort := "6060" ]})))
           = ["6060"; "9999"; "6060"; "6060"]) by (vm_compute; reflexivity).
  assert (H2 : port_inputs (p_annotations (pod_with_annotations
           {[ TelegrafMetricsPorts := "6060,9999,9999" ]})) = ["6060"; "9999"; "9999"])
    by (vm_compute; reflexivity).
  rewrite H1, H2. rewrite !elem_of_cons. set_solver.
Defined.

(* ------------------------------------------------------------------ *)
(** ** The decision engine only appends                                *)


Lemma appended_nil (pod : Pod) : appended pod pod [].
Proof. repeat split; [by rewrite app_nil_r | exists []; by rewrite app_nil_r]. Qed.

Lemma appended_trans (p1 p2 p3 : Pod) cs1 cs2 :
  appended p1 p2 cs1 -> appended p2 p3 cs2 -> appended p1 p3 (cs1 ++ cs2).
Proof.
  intros (?&?&?&?&Hc1&vs1&Hv1) (?&?&?&?&Hc2&vs2&Hv2).
  repeat split; try congruence.
  - by rewrite Hc2, Hc1, app_assoc.
  - exists (vs1 ++ vs2). by rewrite Hv2, Hv1, app_assoc.
Qed.

Lemma addContainerAndSecret_appended secrets (pod : Pod) c className name namespace conf :
  appended pod (addContainerAndSecret secrets pod c className name namespace conf).1 [c].
Proof. repeat split. eexists. reflexivity. Qed.

Lemma newContainer_name E h pod cn c :
  newContainer E h pod cn = Ok c -> c_name c = cn.
Proof.
  unfold newContainer, mbind, result_bind.
  repeat case_match; intros Hc; try discriminate;
    injection Hc as <-; reflexivity.
Qed.

Lemma newIstioContainer_name E h pod cn c :
  newIstioContainer E h pod cn = Ok c -> c_name c = cn.
Proof.
  unfold newIstioContainer, mbind, result_bind.
  repeat case_match; intros Hc; try discriminate;
    injection Hc as <-; reflexivity.
Qed.

Lemma addTelegrafSidecar_appended E h secrets (pod : Pod) name namespace cn :
  exists cs, appended pod (addTelegrafSidecar E h secrets pod name namespace cn).1 cs /\
             Forall (fun c => c_name c = cn) cs.
Proof.
  unfold addTelegrafSidecar.
  destruct (assembleConf E h pod _); [| exists []; split; [apply appended_nil | done]].
  destruct (newContainer E h pod cn) as [c|] eqn:Hc;
    [| exists []; split; [apply appended_nil | done]].
  exists [c]. split; [apply addContainerAndSecret_appended |].
  constructor; [by apply (newContainer_name E h pod) | done].
Qed.

Lemma addIstioTelegrafSidecar_appended E h secrets (pod : Pod) name namespace :
  exists cs, appended pod (addIstioTelegrafSidecar E h secrets pod name namespace).1 cs /\
             Forall (fun c => c_name c = "telegraf-istio") cs.
Proof.
  unfold addIstioTelegrafSidecar.
  destruct (getData E (IstioOutputClass h)); [| exists []; split; [apply appended_nil | done]].
  destruct (newIstioContainer E h pod "telegraf-istio") as [c|] eqn:Hc;
    [| exists []; split; [apply appended_nil | done]].
  exists [c]. split; [apply addContainerAndSecret_appended |].
  constructor; [by apply (newIstioContainer_name E h pod) | done].
Qed.

(** [addSidecars] appends the primary container only through its gate,
    and otherwise only containers named "telegraf-istio". *)
Lemma addSidecars_appended E h (pod : Pod) name namespace :
  exists cs, appended pod (addSidecars E h pod name namespace).1 cs /\
             Forall (fun c => (shouldAddTelegrafSidecar pod = true /\ c_name c = "telegraf")
                              \/ c_name c = "telegraf-istio") cs.
Proof.
  unfold addSidecars.
  assert (Hfirst : exists cs1,
             appended pod (if shouldAddTelegrafSidecar pod
                           then addTelegrafSidecar E h [] pod name namespace "telegraf"
                           else (pod, Ok [])).1 cs1 /\
             Forall (fun c => shouldAddTelegrafSidecar pod = true /\ c_name c = "telegraf") cs1).
  { destruct (shouldAddTelegrafSidecar pod) eqn:Hs.
    - destruct (addTelegrafSidecar_appended E h [] pod name namespace "telegraf") as (cs&Hap&Hf).
      exists cs. split; [done |]. eapply Forall_impl; [exact Hf | done].
    - exists []. split; [apply appended_nil | done]. }
  destruct (if shouldAddTelegrafSidecar pod
            then addTelegrafSidecar E h [] pod name namespace "telegraf"
            else (pod, Ok [])) as [pod1 r1].
  destruct Hfirst as (cs1&Hap1&Hf1). simpl in Hap1.
  destruct r1 as [secrets|e]; [| exists cs1; split; [done |];
                                 eapply Forall_impl; [exact Hf1 | naive_solver]].
  destruct (shouldAddIstioTelegrafSidecar h pod1).
  - destruct (addIstioTelegrafSidecar_appended E h secrets pod1 name namespace) as (cs2&Hap2&Hf2).
    exists (cs1 ++ cs2). split; [eapply appended_trans; eauto |].
    apply Forall_app. split; [eapply Forall_impl; [exact Hf1 | naive_solver] |].
    eapply Forall_impl; [exact Hf2 | naive_solver].
  - exists cs1. split; [done |]. eapply Forall_impl; [exact Hf1 | naive_solver].
Qed.

Lemma shouldAddTelegrafSidecar_spec (pod : Pod) :
  shouldAddTelegrafSidecar pod = true <->
  podHasContainerName pod "telegraf" = false /\
  exists k v, p_annotations pod !! k = Some v /\ Contains k TelegrafAnnotationCommon = true.
Proof.
  unfold shouldAddTelegrafSidecar.
  destruct (podHasContainerName pod "telegraf"); [naive_solver |].
  rewrite existsb_exists. split.
  - intros ([k v]&Hin&Hc). split; [done |]. exists k, v. split; [| done].
    apply elem_of_map_to_list. by apply list_elem_of_In.
  - intros (_&k&v&Hl&Hc). exists (k, v). split; [| done].
    apply list_elem_of_In. by apply elem_of_map_to_list.
Qed.

(** C5: the primary gate holds exactly when the pod has no container
    named "telegraf" and some annotation key contains the reserved
    "telegraf.influxdata.com"; and on a pod that already has a container
    named "telegraf", [addSidecars] appends no container of that name,
    whatever the annotations. *)
Theorem primary_gate_no_second_sidecar :
  (forall pod : Pod,
     shouldAddTelegrafSidecar pod = true <->
     podHasContainerName pod "telegraf" = false /\
     exists k v, p_annotations pod !! k = Some v /\ Contains k TelegrafAnnotationCommon = true)
  /\ (forall E h (pod : Pod) name namespace,
        podHasContainerName pod "telegraf" = true ->
        exists cs, appended pod (addSidecars E h pod name namespace).1 cs /\
                   Forall (fun c => c_name c <> "telegraf") cs).
Proof.
  split; [apply shouldAddTelegrafSidecar_spec |].
  intros E h pod name namespace Hhas.
  assert (Hgate : shouldAddTelegrafSidecar pod = false)
    by (unfold shouldAddTelegrafSidecar; by rewrite Hhas).
  destruct (addSidecars_appended E h pod name namespace) as (cs&Hap&Hf).
  exists cs. split; [done |].
  eapply Forall_impl; [exact Hf |].
  intros c [[Hs _] | ->]; [congruence | done].
Qed.

(** C8: [addSidecars] leaves the annotations, the name, the generated
    name and the labels of the pod unchanged and only appends containers
    and volumes after the existing ones, on every path. *)
Theorem addSidecars_only_appends E h (pod : Pod) name namespace :
  let pod' := (addSidecars E h pod name namespace).1 in
  p_annotations pod' = p_annotations pod /\
  p_name pod' = p_name pod /\ p_generate_name pod' = p_generate_name pod /\
  p_labels pod' = p_labels pod /\
  (exists cs, p_containers pod' = p_containers pod ++ cs) /\
  (exists vs, p_volumes pod' = p_volumes pod ++ vs).
Proof.
  destruct (addSidecars_appended E h pod name namespace) as (cs&(Hn&Hg&Hl&Ha&Hc&Hv)&_).
  simpl. repeat split; eauto.
Qed.

(* ------------------------------------------------------------------ *)
(** ** The secret lifecycle                                             *)


Lemma isSecretManaged_spec require e :
  isSecretManagedByTelegrafOperator require e = true -> managed_per_spec require e.
Proof.
  unfold isSecretManagedByTelegrafOperator, managed_per_spec.
  destruct (String.eqb_spec (s_type e) "Opaque") as [Ht|]; [simpl | discriminate].
  destruct (s_data e) as [d|] eqn:Hd; simpl; [| discriminate].
  destruct (Nat.eqb_spec (size d) 1) as [Hs|]; simpl; [| discriminate].
  unfold get_or_empty.
  destruct (d !! TelegrafSecretDataKey) as [v|] eqn:Hv; simpl; [| discriminate].
  destruct (Nat.eqb (String.length v) 0); [discriminate |].
  intros Hm. split; [done | split; [eexists; split; [done | split; [done | by eexists]] |]].
  intros ->. simpl in Hm.
  destruct (s_annotations e !! TelegrafSecretAnnotationKey) as [a|]; simpl in Hm;
    [| discriminate].
  destruct (String.eqb_spec a TelegrafSecretAnnotationValue); [by subst | discriminate].
Qed.

Lemma size_1_lookup_same (d : gmap string string) i j x y :
  size d = 1%nat -> d !! i = Some x -> d !! j = Some y -> i = j.
Proof.
  intros Hs Hi Hj. destruct (decide (i = j)) as [|Hne]; [done |].
  pose proof (map_size_delete_Some i d ltac:(eauto)) as Hdel.
  rewrite Hs in Hdel. simpl in Hdel.
  apply map_size_empty_inv in Hdel.
  assert (Hj' : delete i d !! j = Some y) by (rewrite lookup_delete_ne; done).
  rewrite Hdel, lookup_empty in Hj'. discriminate.
Qed.

Lemma not_managed_examples require e :
  (s_type e <> "Opaque" \/
   exists d k' v, s_data e = Some d /\ d !! k' = Some v /\ k' <> TelegrafSecretDataKey) ->
  ~ managed_per_spec require e.
Proof.
  intros [Ht | (d&k'&v&Hd&Hk&Hne)] (Ht'&(d'&Hd'&Hs&[x Hx])&_); [done |].
  rewrite Hd in Hd'. injection Hd' as <-.
  apply Hne. eapply size_1_lookup_same; eauto.
Qed.

Lemma createOrUpdateSecret_conflict E require st secret existing :
  api_fault E OpCreate (secret_key secret) = None ->
  api_fault E OpGet (secret_key secret) = None ->
  st !! secret_key secret = Some existing ->
  isSecretManagedByTelegrafOperator require existing = false ->
  createOrUpdateSecret E require st secret = (Err (notManagedError secret), st).
Proof.
  intros Hc Hg Hl Hm.
  unfold createOrUpdateSecret, client_create, client_get.
  rewrite Hc, Hl, Hg, Hl, Hm. reflexivity.
Qed.

(** One iteration changes a stored secret only where there was none or
    where the stored one passed the ownership check. *)
Lemma createOrUpdateSecret_changes E require st secret k :
  (createOrUpdateSecret E require st secret).2 !! k = st !! k \/
  st !! k = None \/
  exists e, st !! k = Some e /\ isSecretManagedByTelegrafOperator require e = true.
Proof.
  unfold createOrUpdateSecret, client_create, client_get, client_update.
  destruct (api_fault E OpCreate (secret_key secret)); [by left |].
  destruct (st !! secret_key secret) as [e0|] eqn:Hl.
  - destruct (api_fault E OpGet (secret_key secret)); [by left |].
    rewrite Hl. simpl.
    destruct (isSecretManagedByTelegrafOperator require e0) eqn:Hm; simpl; [| by left].
    destruct (api_fault E OpUpdate (secret_key secret)); [by left |].
    simpl.
    destruct (decide (k = secret_key secret)) as [->|Hne].
    + right. right. eauto.
    + left. simpl. by rewrite lookup_insert_ne.
  - simpl. destruct (decide (k = secret_key secret)) as [->|Hne].
    + by right; left.
    + left. simpl. by rewrite lookup_insert_ne.
Qed.

Lemma createOrUpdateSecrets_changes E require secrets : forall st k,
  (createOrUpdateSecrets E require st secrets).2 !! k = st !! k \/
  st !! k = None \/
  exists e, st !! k = Some e /\ isSecretManagedByTelegrafOperator require e = true.
Proof.
  induction secrets as [|secret rest IH]; intros st k; simpl; [by left |].
  pose proof (createOrUpdateSecret_changes E require st secret k) as Hstep.
  destruct (createOrUpdateSecret E require st secret) as [[u|e] st1]; simpl in *;
    [| exact Hstep].
  destruct (IH st1 k) as [Heq | [Hnone | (e&He&Hm)]].
  - rewrite Heq. exact Hstep.
  - destruct Hstep as [Hs | Hs]; [right; left; congruence | by right].
  - destruct Hstep as [Hs | Hs]; [right; right; exists e; split; [congruence | done] | by right].
Qed.

(** C1: [createOrUpdateSecrets] tries [Create] first; a secret already
    stored under a name is overwritten only if it is managed (type
    Opaque, data with exactly the one expected key, the managed-by
    annotation when it is required); when the stored secret is not
    managed, e.g. not Opaque or with another data key, the iteration
    for that secret returns the conflict error and leaves the store as
    it was. *)
Theorem createOrUpdateSecrets_ownership (E : collaborators) (require : bool) (st : store) (secrets : list Secret) :
  (forall (k : string * string) (e : Secret), st !! k = Some e ->
     (createOrUpdateSecrets E require st secrets).2 !! k <> Some e ->
     managed_per_spec require e)
  /\ (forall (secret existing : Secret),
        api_fault E OpCreate (secret_key secret) = None ->
        api_fault E OpGet (secret_key secret) = None ->
        st !! secret_key secret = Some existing ->
        (s_type existing <> "Opaque" \/
         (exists d k' v, s_data existing = Some d /\ d !! k' = Some v /\
                         k' <> TelegrafSecretDataKey) \/
         ~ managed_per_spec require existing) ->
        createOrUpdateSecret E require st secret = (Err (notManagedError secret), st) /\
        createOrUpdateSecrets E require st (secret :: secrets) = (Err (notManagedError secret), st)).
Proof.
  split.
  - intros k e Hk Hchanged.
    destruct (createOrUpdateSecrets_changes E require secrets st k) as [Heq | [Hnone | (e'&He'&Hm)]].
    + rewrite Heq in Hchanged. congruence.
    + congruence.
    + rewrite Hk in He'. injection He' as <-. by apply isSecretManaged_spec.
  - intros secret existing Hc Hg Hl Hnot.
    assert (Hnm : ~ managed_per_spec require existing).
    { destruct Hnot as [Ht | [Hx | Hn]]; [| | done]; apply not_managed_examples; auto. }
    assert (Hm : isSecretManagedByTelegrafOperator require existing = false).
    { destruct (isSecretManagedByTelegrafOperator require existing) eqn:Hm; [| done].
      exfalso. apply Hnm. by apply isSecretManaged_spec. }
    pose proof (createOrUpdateSecret_conflict E require st secret existing Hc Hg Hl Hm) as Hstep.
    split; [done |]. simpl. by rewrite Hstep.
Qed.

Lemma createOrUpdateSecrets_ownership_witness :
  createOrUpdateSecrets Example.collab true
    {[ secret_key Example.pending_secret := Example.foreign_secret ]} [Example.pending_secret]
  = (Err (notManagedError Example.pending_secret),
     {[ secret_key Example.pending_secret := Example.foreign_secret ]}).
Proof.
  refine (proj2 (proj2 (createOrUpdateSecrets_ownership Example.collab true
             {[ secret_key Example.pending_secret := Example.foreign_secret ]} [])
             Example.pending_secret Example.foreign_secret _ _ _ _)).
  - reflexivity.
  - reflexivity.
  - apply lookup_singleton_eq.
  - left. vm_compute. discriminate.
Defined.

(** C10: a stored secret whose data holds exactly the expected key with
    an empty value is not managed, whatever its type and annotations,
    so the iteration for a pending secret of that name returns the
    conflict error and leaves the store unchanged. *)
Theorem empty_config_not_managed (E : collaborators) (require : bool) (st : store)
    (secret : Secret) (rest : list Secret) (existing : Secret) :
  s_data existing = Some {[ TelegrafSecretDataKey := EmptyString ]} ->
  api_fault E OpCreate (secret_key secret) = None ->
  api_fault E OpGet (secret_key secret) = None ->
  st !! secret_key secret = Some existing ->
  isSecretManagedByTelegrafOperator require existing = false /\
  createOrUpdateSecrets E require st (secret :: rest) = (Err (notManagedError secret), st).
Proof.
  intros Hd Hc Hg Hl.
  assert (Hm : isSecretManagedByTelegrafOperator require existing = false).
  { unfold isSecretManagedByTelegrafOperator. rewrite Hd.
    destruct (negb (String.eqb (s_type existing) "Opaque")); [done |].
    unfold data_len, data_get, get_or_empty.
    rewrite map_size_singleton, lookup_singleton_eq. reflexivity. }
  split; [done |]. simpl.
  by rewrite (createOrUpdateSecret_conflict E require st secret existing Hc Hg Hl Hm).
Qed.

Lemma empty_config_not_managed_witness :
  isSecretManagedByTelegrafOperator false Example.empty_conf_secret = false /\
  createOrUpdateSecrets Example.collab false
    {[ secret_key Example.pending_secret := Example.empty_conf_secret ]} [Example.pending_secret]
  = (Err (notManagedError Example.pending_secret),
     {[ secret_key Example.pending_secret := Example.empty_conf_secret ]}).
Proof.
  apply (empty_config_not_managed Example.collab false
           {[ secret_key Example.pending_secret := Example.empty_conf_secret ]}
           Example.pending_secret [] Example.empty_conf_secret).
  - reflexivity.
  - reflexivity.
  - reflexivity.
  - apply lookup_singleton_eq.
Defined.

Lemma primary_gate_no_second_sidecar_witness :
  exists cs, appended (mkPod "app" EmptyString ∅ {[ TelegrafMetricsPort := "6060" ]}
                        [Example.telegraf_container] [])
               (addSidecars Example.collab Example.handler
                  (mkPod "app" EmptyString ∅ {[ TelegrafMetricsPort := "6060" ]}
                         [Example.telegraf_container] []) "app" "ns").1 cs /\
             Forall (fun c => c_name c <> "telegraf") cs.
Proof.
  apply (proj2 primary_gate_no_second_sidecar). reflexivity.
Defined.

(* ------------------------------------------------------------------ *)
(** ** Assembly errors on the admission path                           *)

Lemma ports_annotations (p q : Pod) :
  p_annotations p = p_annotations q -> ports p = ports q.
Proof. intros H. unfold ports. by rewrite H. Qed.

Lemma assembleConf_annotations E h (p q : Pod) className :
  p_annotations p = p_annotations q -> assembleConf E h p className = assembleConf E h q className.
Proof.
  intros H. unfold assembleConf, assembleText, concatText. rewrite (ports_annotations p q H), H. reflexivity.
Qed.

Lemma shouldAddTelegrafSidecar_fields (p q : Pod) :
  p_annotations p = p_annotations q -> p_containers p = p_containers q ->
  shouldAddTelegrafSidecar p = shouldAddTelegrafSidecar q.
Proof.
  intros Ha Hc. unfold shouldAddTelegrafSidecar, podHasContainerName. by rewrite Ha, Hc.
Qed.

(** When the primary gate is open and [assembleConf] fails for the
    pod's class, [Handle] allows the request with the advisory message
    of [addTelegrafSidecar]: no patch, and the store is not touched. *)
Lemma Handle_assembleConf_error (E : collaborators) (a : podInjector) (st : store) (req : Request)
    (pod0 : Pod) (e : error) :
  req_operation req <> Delete ->
  req_pod req = Some pod0 ->
  shouldAddTelegrafSidecar pod0 = true ->
  assembleConf E (SidecarHandler a) pod0
    (default (TelegrafDefaultClass (SidecarHandler a)) (p_annotations pod0 !! TelegrafClass))
  = Err e ->
  Handle E a st req =
    (Allowed "telegraf-operator could not create sidecar container due to error in class data", st).
Proof.
  intros Hop Hpod Hgate Hasm.
  unfold Handle. rewrite Hpod.
  assert (Hskip : skip (SidecarHandler a) pod0 = false) by (unfold skip; by rewrite Hgate).
  set (pod := if String.eqb (p_name pod0) EmptyString then _ else pod0).
  assert (Hann : p_annotations pod = p_annotations pod0) by (subst pod; by case_match).
  assert (Hcs : p_containers pod = p_containers pod0) by (subst pod; by case_match).
  assert (Hgate' : shouldAddTelegrafSidecar pod = true)
    by (rewrite (shouldAddTelegrafSidecar_fields pod pod0 Hann Hcs); done).
  assert (Hadd : addSidecars E (SidecarHandler a) pod (p_name pod) (req_namespace req)
                 = (pod, Err (NonFatal e
                     "telegraf-operator could not create sidecar container due to error in class data"))).
  { unfold addSidecars. rewrite Hgate'. unfold addTelegrafSidecar. rewrite Hann.
    rewrite (assembleConf_annotations E _ pod pod0 _ Hann), Hasm. reflexivity. }
  destruct (req_operation req); try congruence; rewrite Hskip; simpl; fold pod;
    rewrite Hadd; reflexivity.
Qed.

(** C7: when the assembled text does not parse, [assembleConf] returns
    the "resulting Telegraf is not a valid file" error, and [Handle]
    admits the pod with the advisory allow response of the non-fatal
    path: no patch, so no sidecar, and no rejection. *)
Theorem invalid_config_admitted (E : collaborators) (a : podInjector) (st : store)
    (req : Request) (pod0 : Pod) (classData text : string) :
  let className :=
    default (TelegrafDefaultClass (SidecarHandler a)) (p_annotations pod0 !! TelegrafClass) in
  getData E className = Some classData ->
  assembleText E (SidecarHandler a) pod0 classData = Ok text ->
  toml_parse E text = false ->
  assembleConf E (SidecarHandler a) pod0 className
    = Err (Errorf "resulting Telegraf is not a valid file") /\
  (req_operation req <> Delete -> req_pod req = Some pod0 -> shouldAddTelegrafSidecar pod0 = true ->
   Handle E a st req =
     (Allowed "telegraf-operator could not create sidecar container due to error in class data", st)).
Proof.
  intros className Hcd Htext Hparse.
  assert (Hasm : assembleConf E (SidecarHandler a) pod0 className
                 = Err (Errorf "resulting Telegraf is not a valid file")).
  { unfold assembleConf. rewrite Hcd. simpl. rewrite Htext. simpl. by rewrite Hparse. }
  split; [done |].
  intros Hop Hpod Hgate. by apply (Handle_assembleConf_error E a st req pod0 _ Hop Hpod Hgate Hasm).
Qed.


Lemma invalid_config_admitted_witness :
  Handle Example.collab {| SidecarHandler := Example.handler; RequireAnnotationsForSecret := true |}
         ∅ (mkRequest Create "app" "ns" (Some invalid_raw_pod))
  = (Allowed "telegraf-operator could not create sidecar container due to error in class data", ∅).
Proof.
  refine (proj2 (invalid_config_admitted Example.collab
            {| SidecarHandler := Example.handler; RequireAnnotationsForSecret := true |}
            ∅ (mkRequest Create "app" "ns" (Some invalid_raw_pod)) invalid_raw_pod
            ("[[outputs.file]]" +:+ nl)
            (EmptyString +:+ nl +:+ "[[inputs.cpu]]" +:+ nl +:+ "  x = = 1" +:+ nl
             +:+ "[[outputs.file]]" +:+ nl) _ _ _) _ _ _).
  - vm_compute. reflexivity.
  - vm_compute. reflexivity.
  - vm_compute. reflexivity.
  - discriminate.
  - reflexivity.
  - vm_compute. reflexivity.
Defined.

Lemma prometheusSection_version_error ann ps versionRaw :
  ann !! TelegrafMetricVersion = Some versionRaw -> ParseInt versionRaw = None ->
  prometheusSection ann ps = Err (Errorf ("value supplied for " +:+ TelegrafMetricVersion
                                          +:+ " must be a number, " +:+ versionRaw +:+ " given")).
Proof.
  intros Hv Hp. unfold prometheusSection. rewrite Hv, Hp. reflexivity.
Qed.

(** C9: with at least one scrape port and a metric-version annotation
    that [strconv.ParseInt] rejects, [assembleConf] returns an error and
    no text (the metric-version error when the class data is found), and
    [Handle] takes the non-fatal path: the pod is admitted without the
    sidecar. *)
Theorem metric_version_not_integer (E : collaborators) (a : podInjector) (st : store)
    (req : Request) (pod0 : Pod) (versionRaw : string) :
  ports pod0 <> [] ->
  p_annotations pod0 !! TelegrafMetricVersion = Some versionRaw ->
  ParseInt versionRaw = None ->
  (forall h className, exists e, assembleConf E h pod0 className = Err e) /\
  (forall h className classData, getData E className = Some classData ->
     assembleConf E h pod0 className
     = Err (Errorf ("value supplied for " +:+ TelegrafMetricVersion
                    +:+ " must be a number, " +:+ versionRaw +:+ " given"))) /\
  (req_operation req <> Delete -> req_pod req = Some pod0 -> shouldAddTelegrafSidecar pod0 = true ->
   Handle E a st req =
     (Allowed "telegraf-operator could not create sidecar container due to error in class data", st)).
Proof.
  intros Hports Hv Hp.
  assert (Hmsg : forall h className classData, getData E className = Some classData ->
     assembleConf E h pod0 className
     = Err (Errorf ("value supplied for " +:+ TelegrafMetricVersion
                    +:+ " must be a number, " +:+ versionRaw +:+ " given"))).
  { intros h className classData Hcd. unfold assembleConf, assembleText, concatText. rewrite Hcd.
    destruct (ports pod0) as [|p ps] eqn:Hps; [done |].
    rewrite (prometheusSection_version_error _ _ versionRaw Hv Hp). reflexivity. }
  assert (Herr : forall h className, exists e, assembleConf E h pod0 className = Err e).
  { intros h className. destruct (getData E className) as [cd|] eqn:Hcd.
    - eexists. by apply (Hmsg h className cd).
    - eexists. unfold assembleConf. rewrite Hcd. reflexivity. }
  split; [done | split; [done |]].
  intros Hop Hpod Hgate.
  destruct (Herr (SidecarHandler a)
              (default (TelegrafDefaultClass (SidecarHandler a)) (p_annotations pod0 !! TelegrafClass)))
    as [e He].
  by apply (Handle_assembleConf_error E a st req pod0 e Hop Hpod Hgate He).
Qed.


Lemma metric_version_not_integer_witness :
  Handle Example.collab {| SidecarHandler := Example.handler; RequireAnnotationsForSecret := true |}
         ∅ (mkRequest Update "app" "ns" (Some bad_version_pod))
  = (Allowed "telegraf-operator could not create sidecar container due to error in class data", ∅).
Proof.
  refine (proj2 (proj2 (metric_version_not_integer Example.collab
            {| SidecarHandler := Example.handler; RequireAnnotationsForSecret := true |}
            ∅ (mkRequest Update "app" "ns" (Some bad_version_pod)) bad_version_pod "two"
            _ _ _)) _ _ _).
  - vm_compute. discriminate.
  - vm_compute. reflexivity.
  - vm_compute. reflexivity.
  - discriminate.
  - reflexivity.
  - vm_compute. reflexivity.
Defined.

(* ------------------------------------------------------------------ *)
(** ** Global tags                                                      *)

Lemma string_app_cons (c : ascii) (s r : string) : String c s +:+ r = String c (s +:+ r).
Proof. reflexivity. Qed.

Lemma string_app_nil_l (r : string) : EmptyString +:+ r = r.
Proof. reflexivity. Qed.

Lemma string_app_nil_r (s : string) : s +:+ EmptyString = s.
Proof. induction s as [|c s IH]; [done | by rewrite string_app_cons, IH]. Qed.

Lemma string_app_assoc (a b c : string) : (a +:+ b) +:+ c = a +:+ b +:+ c.
Proof. induction a as [|x a IH]; [done | by rewrite !string_app_cons, IH]. Qed.

Lemma prefix_app_split (p s r : string) :
  String.prefix p (s +:+ r) = true ->
  String.prefix p s = true \/ exists p2, p = s +:+ p2 /\ String.prefix p2 r = true.
Proof.
  revert p. induction s as [|c s IH]; intros p Hp.
  - right. by exists p.
  - destruct p as [|d p]; [by left |].
    rewrite string_app_cons in Hp. simpl in Hp |- *.
    destruct (ascii_dec d c) as [<-|]; [| discriminate].
    destruct (IH p Hp) as [Hl | [p2 [-> Hp2]]]; [by left |].
    right. by exists p2.
Qed.

Lemma Contains_false_suffix (s sub s1 s2 : string) :
  Contains s sub = false -> s = s1 +:+ s2 -> String.prefix sub s2 = false.
Proof.
  revert s. induction s1 as [|c s1 IH]; intros s Hc ->.
  - rewrite string_app_nil_l in Hc. destruct s2; simpl in Hc; apply orb_false_iff in Hc; tauto.
  - rewrite string_app_cons in Hc. simpl in Hc.
    apply orb_false_iff in Hc as [_ Hc]. by apply (IH (s1 +:+ s2)).
Qed.

Lemma replace_all_go_app (old new s r : string) :
  (forall s1 s2, s = s1 +:+ s2 -> s2 <> EmptyString -> String.prefix old (s2 +:+ r) = false) ->
  replace_all_go old new (s +:+ r) 0 = s +:+ replace_all_go old new r 0.
Proof.
  induction s as [|c s IH]; intros Hs; [done |].
  pose proof (Hs EmptyString (String c s) eq_refl ltac:(discriminate)) as Hc.
  rewrite string_app_cons in Hc. rewrite !string_app_cons. cbn [replace_all_go]. rewrite Hc.
  f_equal. apply IH. intros s1 s2 -> Hne. by apply (Hs (String c s1) s2).
Qed.

(** Splitting the header around its only newline. *)
Lemma global_tags_header_split (s2 p2 : string) :
  global_tags_header = s2 +:+ p2 -> s2 <> EmptyString ->
  String.prefix global_tags_header s2 = false ->
  String.prefix p2 (nl +:+ global_tags_header) = true ->
  s2 = "[global_tags]".
Proof.
  intros Heq Hne Hpre Hp2.
  let h := eval vm_compute in global_tags_header in change global_tags_header with h in Heq.
  do 15 (destruct s2 as [|?c s2];
         [rewrite string_app_nil_l in Heq; subst p2;
          first [done | vm_compute in Hp2; discriminate | vm_compute in Hpre; discriminate] |];
         rewrite string_app_cons in Heq; first [discriminate Heq | injection Heq as <- Heq]).
Qed.

Lemma inject_append (telegrafConf new : string) :
  Contains telegrafConf global_tags_header = false ->
  (forall s1, telegrafConf <> s1 +:+ "[global_tags]") ->
  ReplaceAll (telegrafConf +:+ nl +:+ global_tags_header) global_tags_header new
  = telegrafConf +:+ nl +:+ new.
Proof.
  intros Hc Hend. unfold ReplaceAll.
  rewrite replace_all_go_app.
  - f_equal. vm_compute. f_equal. apply string_app_nil_r.
  - intros s1 s2 Hs Hne.
    destruct (String.prefix global_tags_header (s2 +:+ nl +:+ global_tags_header)) eqn:Hp;
      [| done].
    pose proof (Contains_false_suffix _ _ s1 s2 Hc Hs) as Hs2.
    destruct (prefix_app_split _ _ _ Hp) as [Hl | [p2 [Heq Hp2]]]; [congruence |].
    pose proof (global_tags_header_split s2 p2 Heq Hne Hs2 Hp2) as ->.
    by destruct (Hend s1).
Qed.

Lemma globalTagsText_lines (E : collaborators) (tags : list (string * string)) :
  globalTagsText E tags
  = global_tags_header +:+ foldr String.append EmptyString (map (global_tag_line E) tags).
Proof.
  unfold globalTagsText. generalize global_tags_header as acc.
  induction tags as [|kv tags IH]; intros acc; simpl.
  - by rewrite string_app_nil_r.
  - rewrite IH. by rewrite string_app_assoc.
Qed.

Lemma elem_of_globalTags (ann : gmap string string) (k v : string) :
  (k, v) ∈ globalTags ann <->
  exists key, ann !! key = Some v /\ HasPrefix key TelegrafGlobalTagLiteralPrefix = true
              /\ TrimPrefix key TelegrafGlobalTagLiteralPrefix = k.
Proof.
  unfold globalTags. rewrite (merge_sort_Permutation key_le _), list_elem_of_omap.
  split.
  - intros [[key v'] [Hin Hf]]. simpl in Hf.
    destruct (HasPrefix key _) eqn:Hp; [| discriminate].
    injection Hf as <- <-. apply elem_of_map_to_list in Hin. eauto.
  - intros (key & Hl & Hp & Ht). exists (key, v). simpl.
    rewrite elem_of_map_to_list, Hp, Ht. done.
Qed.

(** C2 (amended).  Let [conf4] be the pod-local sections and the class
    data concatenated.  The tags are the annotations under the
    global-tag-literal prefix, sorted by key, one [  key = %q] line each
    after a "[global_tags]" header line.  Without tags the text is
    [conf4].  With tags, if [conf4] contains "[global_tags]\n" then every
    occurrence of that substring is replaced by the tag block (not only
    the first); if it does not, and [conf4] does not end with
    "[global_tags]", the block is appended after a newline as a new
    section.  The result goes to the parser unchanged. *)
Theorem global_tags_injected (E : collaborators) (h : sidecarHandler) (pod : Pod)
    (classData conf4 : string) :
  concatText h pod classData = Ok conf4 ->
  let tags := globalTags (p_annotations pod) in
  let block := global_tags_header
               +:+ foldr String.append EmptyString (map (global_tag_line E) tags) in
  Sorted key_le tags /\
  (forall k v, (k, v) ∈ tags <->
     exists key, p_annotations pod !! key = Some v
                 /\ HasPrefix key TelegrafGlobalTagLiteralPrefix = true
                 /\ TrimPrefix key TelegrafGlobalTagLiteralPrefix = k) /\
  (tags = [] -> assembleText E h pod classData = Ok conf4) /\
  (tags <> [] -> Contains conf4 global_tags_header = true ->
     assembleText E h pod classData = Ok (ReplaceAll conf4 global_tags_header block)) /\
  (tags <> [] -> Contains conf4 global_tags_header = false ->
     (forall s1, conf4 <> s1 +:+ "[global_tags]") ->
     assembleText E h pod classData = Ok (conf4 +:+ nl +:+ block)) /\
  (forall className t, getData E className = Some classData ->
     assembleText E h pod classData = Ok t ->
     assembleConf E h pod className
     = if toml_parse E t then Ok t else Err (Errorf "resulting Telegraf is not a valid file")).
Proof.
  intros Hc. cbv zeta.
  assert (Htext : assembleText E h pod classData
                  = Ok (inject_global_tags E conf4 (globalTags (p_annotations pod)))).
  { unfold assembleText, mbind, result_bind. by rewrite Hc. }
  rewrite Htext. clear Htext.
  split; [apply (Sorted_merge_sort key_le) |].
  split; [intros k v; apply elem_of_globalTags |].
  unfold inject_global_tags. rewrite <- globalTagsText_lines.
  assert (Hparse : forall className t, getData E className = Some classData ->
     Ok (inject_global_tags E conf4 (globalTags (p_annotations pod))) = Ok t ->
     assembleConf E h pod className
     = if toml_parse E t then Ok t else Err (Errorf "resulting Telegraf is not a valid file")).
  { intros className t Hcd Ht. unfold assembleConf, assembleText, mbind, result_bind.
    rewrite Hcd, Hc. injection Ht as <-. reflexivity. }
  unfold inject_global_tags in Hparse.
  destruct (globalTags (p_annotations pod)) as [|kv rest].
  - split; [done |]. split; [done |]. split; [done |]. exact Hparse.
  - split; [done |].
    split; [intros _ Hcon; by rewrite Hcon |].
    split; [intros _ Hcon Hend; rewrite Hcon; f_equal; by apply inject_append |].
    exact Hparse.
Qed.

Lemma global_tags_injected_witness :
  concatText Example.handler Example.global_tags_pod Example.global_tags_class
  = Ok (nl +:+ "# " +:+ global_tags_header +:+ nl +:+ Example.global_tags_class) /\
  assembleText Example.collab Example.handler Example.global_tags_pod Example.global_tags_class
  = Ok (ReplaceAll (nl +:+ "# " +:+ global_tags_header +:+ nl +:+ Example.global_tags_class) global_tags_header
          (global_tags_header +:+ "  env = " +:+ dq +:+ "prod" +:+ dq +:+ nl)).
Proof.
  assert (Hc : concatText Example.handler Example.global_tags_pod
                 Example.global_tags_class = Ok (nl +:+ "# " +:+ global_tags_header +:+ nl +:+ Example.global_tags_class)).
  { vm_compute. reflexivity. }
  split; [exact Hc |].
  refine (proj1 (proj2 (proj2 (proj2 (global_tags_injected Example.collab Example.handler
            Example.global_tags_pod Example.global_tags_class _ Hc)))) _ _).
  - vm_compute. discriminate.
  - vm_compute. reflexivity.
Defined.

(** C2 (counterexample).  The tag block is substituted into every
    occurrence of "[global_tags]\n", not only into the first: here the
    raw input mentions the header in a comment and the class data opens
    the section, and the text [assembleConf] hands to the parser
    carries the tag line twice, unlike the first-occurrence reading. *)
Lemma global_tags_first_occurrence_only_counterexample :
  exists conf4 t,
    concatText Example.handler Example.global_tags_pod Example.global_tags_class
    = Ok conf4 /\
    assembleText Example.collab Example.handler Example.global_tags_pod Example.global_tags_class
    = Ok t /\
    t <> ReplaceFirst_spec global_tags_header
           (globalTagsText Example.collab (globalTags (p_annotations Example.global_tags_pod)))
           conf4.
Proof.
  do 2 eexists. split; [vm_compute; reflexivity |]. split; [vm_compute; reflexivity |].
  vm_compute. discriminate.
Qed.

(* ------------------------------------------------------------------ *)
(** ** The secrets updater                                              *)

(** The loop writes, in order, what the iterations it reached hand to
    [Update]; a pass that ends without error has reached every secret. *)
Lemma updateSecrets_written (u : Updater.secretsUpdater) (ns : string) (secrets : list Secret) :
  exists pre, pre `prefix_of` secrets /\
    ((Updater.updateSecrets u ns secrets).2 = Updater.PassOk -> pre = secrets) /\
    (Updater.updateSecrets u ns secrets).1 = omap (Updater.written u ns) pre.
Proof.
  induction secrets as [|secret rest IH]; simpl.
  - exists []. done.
  - assert (Hw1 : Updater.written u ns secret
                  = match Updater.updateSecret u ns secret with
                    | Updater.StepUpdate s => Some s | _ => None end) by reflexivity.
    destruct (Updater.updateSecret u ns secret) as [e| | |s] eqn:Hs.
    + exists []. split; [apply prefix_nil |]. done.
    + exists []. split; [apply prefix_nil |]. done.
    + destruct IH as (pre & Hpre & Hok & Hw). exists (secret :: pre).
      split; [by apply prefix_cons |]. split; [intros H; by rewrite (Hok H) |].
      simpl. by rewrite Hw1.
    + destruct (Updater.update_fault u s) as [m|].
      * exists [secret]. split; [apply prefix_cons, prefix_nil |]. split; [done |].
        simpl. by rewrite Hw1.
      * destruct (Updater.updateSecrets u ns rest) as [w r] eqn:Hrest.
        destruct IH as (pre & Hpre & Hok & Hw). exists (secret :: pre).
        split; [by apply prefix_cons |]. split; [intros H; by rewrite (Hok H) |].
        simpl in Hw |- *. rewrite Hw1, Hw. done.
Qed.

(** C4.  Take a listed secret carrying both labels, whose pod is found
    and whose configuration assembles to [conf], and whose data map is
    set (as on every secret the operator created).  The iteration hands
    a secret to [Update] if and only if the text stored under
    "telegraf.conf" differs from [conf] byte for byte, and then it is the
    secret with that entry set to [conf]; when the texts are equal it
    writes nothing.  The pass writes exactly what its iterations hand to
    [Update], in order, and a pass without error reaches every secret. *)
Theorem reconciler_updates_iff_differs (u : Updater.secretsUpdater) (ns : string)
    (secret : Secret) (pod : Pod) (conf : string) (d : gmap string string) :
  get_or_empty (s_labels secret) TelegrafSecretLabelPod <> EmptyString ->
  get_or_empty (s_labels secret) TelegrafSecretLabelClassName <> EmptyString ->
  Updater.getPod u ns (get_or_empty (s_labels secret) TelegrafSecretLabelPod) = Ok pod ->
  Updater.assembleConf u pod (get_or_empty (s_labels secret) TelegrafSecretLabelClassName) = Ok conf ->
  s_data secret = Some d ->
  (Updater.written u ns secret = None <-> data_get (s_data secret) TelegrafSecretDataKey = conf) /\
  (forall s, Updater.written u ns secret = Some s ->
     data_get (s_data secret) TelegrafSecretDataKey <> conf /\
     s = Updater.with_data secret (<[ TelegrafSecretDataKey := conf ]> d)) /\
  (data_get (s_data secret) TelegrafSecretDataKey <> conf ->
     Updater.written u ns secret = Some (Updater.with_data secret (<[ TelegrafSecretDataKey := conf ]> d))) /\
  (forall secrets, exists pre, pre `prefix_of` secrets /\
     ((Updater.updateSecrets u ns secrets).2 = Updater.PassOk -> pre = secrets) /\
     (Updater.updateSecrets u ns secrets).1 = omap (Updater.written u ns) pre).
Proof.
  intros Hp Hc Hpod Hconf Hd.
  assert (Hstep : Updater.written u ns secret
                  = if String.eqb (data_get (s_data secret) TelegrafSecretDataKey) conf then None
                    else Some (Updater.with_data secret (<[ TelegrafSecretDataKey := conf ]> d))).
  { unfold Updater.written, Updater.updateSecret.
    apply String.eqb_neq in Hp, Hc. rewrite Hp, Hc. simpl. rewrite Hpod, Hconf.
    destruct (String.eqb _ conf); simpl; [done |]. by rewrite Hd. }
  rewrite Hstep.
  destruct (String.eqb_spec (data_get (s_data secret) TelegrafSecretDataKey) conf) as [Heq|Hne].
  - split; [done |]. split; [done |]. split; [done |]. intros secrets. apply updateSecrets_written.
  - split; [done |]. split; [intros s Hs; injection Hs as <-; done |].
    split; [done |]. intros secrets. apply updateSecrets_written.
Qed.

Lemma reconciler_updates_iff_differs_witness :
  Updater.written Example.updater "ns" Example.stale_secret
  = Some (Updater.with_data Example.stale_secret
            (<[ TelegrafSecretDataKey := nl +:+ "[[outputs.file]]" +:+ nl ]>
               {[ TelegrafSecretDataKey := "[agent]" +:+ nl ]})).
Proof.
  refine (proj1 (proj2 (proj2 (reconciler_updates_iff_differs Example.updater "ns"
            Example.stale_secret (mkPod "app" EmptyString ∅ ∅ [] [])
            (nl +:+ "[[outputs.file]]" +:+ nl) {[ TelegrafSecretDataKey := "[agent]" +:+ nl ]}
            _ _ _ _ _))) _).
  - vm_compute. discriminate.
  - vm_compute. discriminate.
  - vm_compute. reflexivity.
  - vm_compute. reflexivity.
  - reflexivity.
  - vm_compute. discriminate.
Defined.

(* ------------------------------------------------------------------ *)
(** ** The class watcher                                                *)


Lemma batch_step_same (count : nat -> nat) (eventDelay callbackTime arrival : nat)
    (b : Watcher.batcher) :
  count (Nat.max (Watcher.free_at b) arrival) = Watcher.previousEventCount b ->
  Watcher.batch_step count eventDelay callbackTime b arrival
  = Watcher.mkBatcher (Nat.max (Watcher.free_at b) arrival) (Watcher.previousEventCount b)
                      (Watcher.callbacks b).
Proof. intros H. unfold Watcher.batch_step. by rewrite H, Nat.eqb_refl. Qed.

Lemma batch_step_differs (count : nat -> nat) (eventDelay callbackTime arrival : nat)
    (b : Watcher.batcher) :
  count (Nat.max (Watcher.free_at b) arrival) <> Watcher.previousEventCount b ->
  let woke := (Nat.max (Watcher.free_at b) arrival + eventDelay)%nat in
  Watcher.batch_step count eventDelay callbackTime b arrival
  = Watcher.mkBatcher (woke + callbackTime) (count woke) (Watcher.callbacks b ++ [woke]).
Proof.
  intros H. unfold Watcher.batch_step. by apply Nat.eqb_neq in H as ->.
Qed.

(** C3 (amended).  A signal received when the counter equals the value
    last processed invokes no callback and records nothing; otherwise
    the worker sleeps [eventDelay], invokes [onChange] exactly once at
    wake-up and records the counter read then.  For a fresh watcher,
    three notifications arriving within one window ([a3 < a1 +
    eventDelay]) give one callback; three notifications give three
    callbacks when each gap exceeds the window plus the time the
    callback runs. *)
Theorem watcher_batches (eventDelay callbackTime : nat) :
  (forall count arrival b,
     count (Nat.max (Watcher.free_at b) arrival) = Watcher.previousEventCount b ->
     Watcher.callbacks (Watcher.batch_step count eventDelay callbackTime b arrival)
     = Watcher.callbacks b /\
     Watcher.previousEventCount (Watcher.batch_step count eventDelay callbackTime b arrival)
     = Watcher.previousEventCount b) /\
  (forall count arrival b,
     count (Nat.max (Watcher.free_at b) arrival) <> Watcher.previousEventCount b ->
     let woke := (Nat.max (Watcher.free_at b) arrival + eventDelay)%nat in
     Watcher.callbacks (Watcher.batch_step count eventDelay callbackTime b arrival)
     = Watcher.callbacks b ++ [woke] /\
     Watcher.previousEventCount (Watcher.batch_step count eventDelay callbackTime b arrival)
     = count woke) /\
  (forall a1 a2 a3 : nat, (a1 <= a2)%nat -> (a2 <= a3)%nat -> (a3 < a1 + eventDelay)%nat ->
     Watcher.callbacks (Watcher.batchChanges eventDelay callbackTime [a1; a2; a3])
     = [(a1 + eventDelay)%nat]) /\
  (forall a1 a2 a3 : nat,
     (a1 + eventDelay + callbackTime < a2)%nat -> (a2 + eventDelay + callbackTime < a3)%nat ->
     Watcher.callbacks (Watcher.batchChanges eventDelay callbackTime [a1; a2; a3])
     = [(a1 + eventDelay)%nat; (a2 + eventDelay)%nat; (a3 + eventDelay)%nat]).
Proof.
  split; [intros count arrival b H; by rewrite batch_step_same |].
  split; [intros count arrival b H; by rewrite batch_step_differs |].
  split.
  - intros a1 a2 a3 H1 H2 H3. unfold Watcher.batchChanges. cbn [fold_left].
    rewrite (batch_step_differs _ _ _ a1) by count_solve.
    rewrite (batch_step_same _ _ _ a2) by count_solve.
    rewrite (batch_step_same _ _ _ a3) by count_solve.
    reflexivity.
  - intros a1 a2 a3 H1 H2. unfold Watcher.batchChanges. cbn [fold_left].
    rewrite (batch_step_differs _ _ _ a1) by count_solve.
    rewrite (batch_step_differs _ _ _ a2) by count_solve.
    rewrite (batch_step_differs _ _ _ a3) by count_solve.
    cbn [Watcher.free_at Watcher.callbacks app].
    rewrite (Nat.max_r _ a2), (Nat.max_r _ a3) by lia. reflexivity.
Qed.

Lemma watcher_batches_witness :
  Watcher.callbacks (Watcher.batchChanges 10 0 [0; 1; 2]%nat) = [10%nat] /\
  Watcher.callbacks (Watcher.batchChanges 10 0 [0; 11; 22]%nat) = [10; 21; 32]%nat.
Proof.
  split.
  - apply (proj1 (proj2 (proj2 (watcher_batches 10 0)))); lia.
  - apply (proj2 (proj2 (proj2 (watcher_batches 10 0)))); lia.
Defined.

(** C3 (counterexample).  The time [onChange] runs counts: with a
    window of 10 and a callback that runs for 10 (the production
    callback lists every namespace and its secrets through the API),
    notifications at 0, 11 and 22 are each more than a full window
    apart, yet the watcher invokes the callback twice, at 10 and 30: the
    third notification arrives while the second callback runs, and the
    counter read after the next sleep already includes it. *)
Lemma watcher_full_windows_counterexample :
  (0 + 10 < 11)%nat /\ (11 + 10 < 22)%nat /\
  Watcher.callbacks (Watcher.batchChanges 10 10 [0; 11; 22]%nat) = [10; 30]%nat /\
  length (Watcher.callbacks (Watcher.batchChanges 10 10 [0; 11; 22]%nat)) = 2%nat.
Proof. split; [lia |]. split; [lia |]. split; reflexivity. Qed.

(* ================================================================== *)
(** * Further properties of the admission webhook, the updater and the
      watcher                                                          *)

Lemma eventCount_mono arrivals t t' :
  (t <= t')%nat -> (Watcher.eventCount arrivals t <= Watcher.eventCount arrivals t')%nat.
Proof.
  intros Hle. unfold Watcher.eventCount. induction arrivals as [|x l IH]; simpl; [lia |].
  destruct (Nat.leb_spec x t), (Nat.leb_spec x t'); simpl; lia.
Qed.

(** A notification counted no later than [t] arrived no later than [t]. *)
Lemma eventCount_le_arrival arrivals a t :
  In a arrivals ->
  (Watcher.eventCount arrivals a <= Watcher.eventCount arrivals t)%nat -> (a <= t)%nat.
Proof.
  intros Hin Hc. destruct (Nat.le_gt_cases a t) as [|Hlt]; [done | exfalso].
  unfold Watcher.eventCount in Hc.
  assert (Hlt' : (length (List.filter (fun x => Nat.leb x t) arrivals)
                  < length (List.filter (fun x => Nat.leb x a) arrivals))%nat).
  { clear Hc. induction arrivals as [|x l IH]; [done |].
    destruct Hin as [-> | Hin]; simpl.
    - rewrite Nat.leb_refl. destruct (Nat.leb_spec a t); [lia |]. simpl.
      enough (length (List.filter (fun x => Nat.leb x t) l)
              <= length (List.filter (fun x => Nat.leb x a) l))%nat by lia.
      apply (eventCount_mono l t a). lia.
    - specialize (IH Hin).
      destruct (Nat.leb_spec x t), (Nat.leb_spec x a); simpl; lia. }
  lia.
Qed.

Section batching.
Variables (arrivals : list nat) (eventDelay callbackTime : nat).
Local Abbreviation count := (Watcher.eventCount arrivals).
Local Abbreviation step := (Watcher.batch_step count eventDelay callbackTime).

Lemma covered_step b done a :
  In a arrivals -> Watcher.covered arrivals b done -> Watcher.covered arrivals (step b a) (done ++ [a]).
Proof.
  intros Hin [Hprev Hdone]. unfold Watcher.batch_step.
  set (r := Nat.max (Watcher.free_at b) a).
  assert (Har : (count a <= count r)%nat) by (apply eventCount_mono; lia).
  destruct (Nat.eqb_spec (count r) (Watcher.previousEventCount b)) as [Heq|Hne].
  - split; [done |]. intros x Hx. apply in_app_or in Hx as [Hx | [-> | []]]; [by apply Hdone |].
    destruct Hprev as [[_ H0] | (w & Hw & Hpw)].
    + exfalso. assert (Hpos : (0 < count x)%nat).
      { unfold Watcher.eventCount. clear -Hin. induction arrivals as [|y l IH]; [done|].
        destruct Hin as [<-|Hin]; simpl; [rewrite Nat.leb_refl; simpl; lia |].
        specialize (IH Hin). destruct (Nat.leb y x); simpl; lia. }
      lia.
    + exists w. split; [done |]. apply (eventCount_le_arrival arrivals); [done | lia].
  - cbn [Watcher.callbacks Watcher.previousEventCount]. split.
    + right. exists (r + eventDelay)%nat. split; [apply in_or_app; by right; left | done].
    + intros x Hx. apply in_app_or in Hx as [Hx | [-> | []]].
      * destruct (Hdone x Hx) as (w & Hw & Hle). exists w. split; [apply in_or_app; by left | done].
      * exists (r + eventDelay)%nat. split; [apply in_or_app; by right; left | lia].
Qed.

End batching.

(** X1: no notification is lost.  For every arrival time [a],
    [batchChanges] invokes the callback at some time no earlier than [a],
    however the notifications are batched. *)
Theorem watcher_no_lost_notification eventDelay callbackTime arrivals a :
  In a arrivals ->
  exists w, In w (Watcher.callbacks (Watcher.batchChanges eventDelay callbackTime arrivals)) /\
            (a <= w)%nat.
Proof.
  intros Hin. unfold Watcher.batchChanges.
  assert (Hgen : forall l done b, (forall x, In x l -> In x arrivals) ->
            Watcher.covered arrivals b done ->
            Watcher.covered arrivals (fold_left (Watcher.batch_step (Watcher.eventCount arrivals) eventDelay callbackTime) l b) (done ++ l)).
  { induction l as [|x l IH]; intros done b Hl Hc; simpl; [by rewrite app_nil_r |].
    rewrite (cons_middle x done l), app_assoc. apply IH; [intros y Hy; apply Hl; by right |].
    apply covered_step; [apply Hl; by left | done]. }
  destruct (Hgen arrivals [] (Watcher.mkBatcher 0 0 []) (fun x H => H)) as [_ Hall].
  { split; [left; done | intros ? []]. }
  apply Hall. exact Hin.
Qed.

Lemma Sorted_snoc {A} (R : A -> A -> Prop) (l : list A) x :
  Sorted R l -> (forall y, last l = Some y -> R y x) -> Sorted R (l ++ [x]).
Proof.
  induction l as [|y l IH]; intros Hs Hl; simpl; [by repeat constructor |].
  apply Sorted_inv in Hs as [Hs Hhd]. constructor.
  - apply IH; [done |]. intros z Hz. apply Hl. destruct l; [done | exact Hz].
  - destruct l as [|z l]; simpl; constructor.
    + apply Hl. done.
    + by inversion Hhd.
Qed.

(** X2: successive callbacks of the watcher are at least the window plus
    the callback's running time apart, and there are never more callbacks
    than notifications. *)
Theorem watcher_callbacks_spaced eventDelay callbackTime arrivals :
  let cbs := Watcher.callbacks (Watcher.batchChanges eventDelay callbackTime arrivals) in
  Sorted (fun w w' => (w + callbackTime + eventDelay <= w')%nat) cbs /\
  (length cbs <= length arrivals)%nat.
Proof.
  simpl. unfold Watcher.batchChanges.
  set (R := fun w w' => (w + callbackTime + eventDelay <= w')%nat).
  assert (Hgen : forall l b,
    Sorted R (Watcher.callbacks b) ->
    (forall w, last (Watcher.callbacks b) = Some w -> (w + callbackTime <= Watcher.free_at b)%nat) ->
    let b' := fold_left (Watcher.batch_step (Watcher.eventCount arrivals) eventDelay callbackTime) l b in
    Sorted R (Watcher.callbacks b') /\
    (length (Watcher.callbacks b') <= length (Watcher.callbacks b) + length l)%nat).
  { induction l as [|x l IH]; intros b Hs Hl; simpl; [split; [done | lia] |].
    remember (Watcher.batch_step (Watcher.eventCount arrivals) eventDelay callbackTime b x) as b1 eqn:Hb1.
    assert (Hb1' : Sorted R (Watcher.callbacks b1) /\
              (forall w, last (Watcher.callbacks b1) = Some w -> (w + callbackTime <= Watcher.free_at b1)%nat) /\
              (length (Watcher.callbacks b1) <= S (length (Watcher.callbacks b)))%nat).
    { subst b1. unfold Watcher.batch_step.
      set (r := Nat.max (Watcher.free_at b) x).
      assert (Hr : (Watcher.free_at b <= r)%nat) by apply Nat.le_max_l.
      destruct (Nat.eqb _ _); simpl.
      - split; [done | split; [intros w Hw; specialize (Hl w Hw); lia | lia]].
      - split; [| split].
        + apply Sorted_snoc; [done |]. intros y Hy. specialize (Hl y Hy). unfold R. lia.
        + intros w Hw. rewrite last_snoc in Hw. injection Hw as <-. lia.
        + rewrite length_app. simpl. lia. }
    destruct Hb1' as (Hs1 & Hl1 & Hlen1).
    destruct (IH b1 Hs1 Hl1) as [H1 H2]. split; [done | lia]. }
  destruct (Hgen arrivals (Watcher.mkBatcher 0 0 [])) as [H1 H2]; simpl; [constructor | done |].
  split; [done | simpl in H2; lia].
Qed.

(** X3: [onChange] walks the namespaces in order and stops at the first
    one whose pass does not end normally.  The secrets written are those
    of the namespaces before it and of that namespace, and the outcome is
    that namespace's. *)
Theorem onChange_stops_at_first_failure (u : Updater.secretsUpdater) (pre post : list string) (ns : string) :
  Forall (fun n => (Updater.updateSecretsInNamespace u n).2 = Updater.PassOk) pre ->
  (Updater.updateSecretsInNamespace u ns).2 <> Updater.PassOk ->
  Updater.onChange u (Ok (pre ++ ns :: post)) =
    (concat (map (fun n => (Updater.updateSecretsInNamespace u n).1) (pre ++ [ns])),
     (Updater.updateSecretsInNamespace u ns).2).
Proof.
  intros Hpre Hns. simpl. induction Hpre as [|n pre Hn Hpre IH]; simpl.
  - destruct (Updater.updateSecretsInNamespace u ns) as [w r]. simpl in *.
    destruct r; [done | |]; by rewrite app_nil_r.
  - destruct (Updater.updateSecretsInNamespace u n) as [w r]. simpl in Hn. subst r.
    by rewrite IH.
Qed.

(** X4: when the pass of every namespace ends normally, [onChange] writes
    the secrets of each namespace, in namespace order, and ends normally. *)
Lemma onChange_all_ok (u : Updater.secretsUpdater) (nss : list string) :
  Forall (fun n => (Updater.updateSecretsInNamespace u n).2 = Updater.PassOk) nss ->
  Updater.onChange u (Ok nss) =
    (concat (map (fun n => (Updater.updateSecretsInNamespace u n).1) nss), Updater.PassOk).
Proof.
  intros Hall. simpl. induction Hall as [|n nss Hn Hall IH]; simpl; [done |].
  destruct (Updater.updateSecretsInNamespace u n) as [w r]. simpl in Hn. subst r.
  by rewrite IH.
Qed.

Lemma parseCustomOrDefaultQuantity_ok E res name custom dflt :
  (dflt = EmptyString \/ is_Some (ParseQuantity E dflt)) ->
  exists res', parseCustomOrDefaultQuantity E res name custom dflt = Ok res'.
Proof.
  intros Hd. unfold parseCustomOrDefaultQuantity.
  destruct (String.eqb custom EmptyString); [eauto |].
  destruct (ParseQuantity E custom); [eauto |].
  destruct (String.eqb_spec dflt EmptyString); [eauto |].
  destruct Hd as [|[q Hq]]; [done |]. rewrite Hq. eauto.
Qed.

Lemma validate_quantities_ok E values :
  validate_quantities E values = Ok tt <->
  Forall (fun v => v = EmptyString \/ is_Some (ParseQuantity E v)) values.
Proof.
  induction values as [|v values IH]; simpl; [split; [constructor | done] |].
  rewrite Forall_cons, <- IH.
  destruct (String.eqb_spec v EmptyString) as [->|Hne]; [naive_solver |].
  destruct (ParseQuantity E v) eqn:Hq; [naive_solver |].
  split; [discriminate |]. intros [[|[? ?]] _]; [done | congruence].
Qed.

(** X6: when [validateRequestsAndLimits] accepts the handler's default
    quantities, [newContainer] succeeds for every pod and container name. *)
Theorem validated_defaults_newContainer_ok E h :
  validateRequestsAndLimits E h = Ok tt ->
  forall (pod : Pod) (containerName : string), exists c, newContainer E h pod containerName = Ok c.
Proof.
  unfold validateRequestsAndLimits. rewrite validate_quantities_ok, !Forall_cons.
  intros (H1 & H2 & H3 & H4 & _) pod containerName.
  unfold newContainer, mbind, result_bind.
  destruct (parseCustomOrDefaultQuantity_ok E [] "cpu"
              (default (RequestsCPU h) (p_annotations pod !! TelegrafRequestsCPU)) _ H1) as [r1 ->].
  destruct (parseCustomOrDefaultQuantity_ok E r1 "memory"
              (default (RequestsMemory h) (p_annotations pod !! TelegrafRequestsMemory)) _ H2) as [r2 ->].
  destruct (parseCustomOrDefaultQuantity_ok E [] "cpu"
              (default (LimitsCPU h) (p_annotations pod !! TelegrafLimitsCPU)) _ H3) as [r3 ->].
  destruct (parseCustomOrDefaultQuantity_ok E r3 "memory"
              (default (LimitsMemory h) (p_annotations pod !! TelegrafLimitsMemory)) _ H4) as [r4 ->].
  eauto.
Qed.

Lemma string_app_nonempty_r (s r : string) : r <> EmptyString -> s +:+ r <> EmptyString.
Proof. destruct s; [done | discriminate]. Qed.

Lemma nl_app_nonempty (s r : string) : s +:+ nl +:+ r <> EmptyString.
Proof. apply string_app_nonempty_r. discriminate. Qed.

Lemma string_app_nonempty_l (s r : string) : s <> EmptyString -> s +:+ r <> EmptyString.
Proof. destruct s; [done | discriminate]. Qed.

Lemma replace_all_go_nonempty (old new s : string) :
  s <> EmptyString -> new <> EmptyString -> replace_all_go old new s 0 <> EmptyString.
Proof.
  intros Hs Hn. destruct s as [|c s]; [done |]. cbn [replace_all_go].
  destruct (String.prefix old (String c s)); [by apply string_app_nonempty_l | discriminate].
Qed.

Lemma concatText_nonempty h pod classData text :
  concatText h pod classData = Ok text -> text <> EmptyString.
Proof.
  unfold concatText, mbind, result_bind. case_match; [| discriminate].
  intros Htext. injection Htext as <-. apply nl_app_nonempty.
Qed.

Lemma inject_global_tags_nonempty E conf tags :
  conf <> EmptyString -> inject_global_tags E conf tags <> EmptyString.
Proof.
  intros Hc. unfold inject_global_tags. destruct tags as [|kv tags]; [done |].
  unfold ReplaceAll. apply replace_all_go_nonempty.
  - case_match; [done | by apply string_app_nonempty_l].
  - rewrite globalTagsText_lines. apply string_app_nonempty_l. discriminate.
Qed.

Lemma assembleConf_nonempty E h pod className text :
  assembleConf E h pod className = Ok text -> text <> EmptyString.
Proof.
  unfold assembleConf, assembleText, mbind, result_bind.
  destruct (getData E className); [| discriminate].
  destruct (concatText h pod _) as [conf4|] eqn:Hc; [| discriminate].
  destruct (toml_parse E _); [| discriminate].
  intros Ht. injection Ht as <-. apply inject_global_tags_nonempty.
  by apply (concatText_nonempty h pod _ _ Hc).
Qed.

Lemma persist_newSecret_managed require pod className name namespace containerName conf :
  conf <> EmptyString ->
  isSecretManagedByTelegrafOperator require
    (persist (newSecret pod className name namespace containerName conf)) = true /\
  s_data (persist (newSecret pod className name namespace containerName conf))
    = Some {[ TelegrafSecretDataKey := conf ]}.
Proof.
  intros Hc. unfold persist, newSecret. cbn [s_string_data s_data default from_option id].
  rewrite map_union_empty. case_decide as Hd; [by apply map_non_empty_singleton in Hd |].
  split; [| done].
  unfold isSecretManagedByTelegrafOperator. cbn - [TelegrafSecretDataKey].
  unfold data_len, data_get, get_or_empty.
  rewrite map_size_singleton, lookup_singleton_eq. simpl.
  destruct (Nat.eqb_spec (String.length conf) 0) as [Hl|]; [destruct conf; [done | discriminate] |].
  destruct require; [| done]. simpl. unfold TelegrafSecretAnnotationKey. rewrite lookup_insert_eq. simpl. reflexivity.
Qed.

Lemma sidecar_secrets_more_volumes (p p' : Pod) name namespace secrets vs :
  p_volumes p' = p_volumes p ++ vs ->
  Forall (sidecar_secret p name namespace) secrets ->
  Forall (sidecar_secret p' name namespace) secrets.
Proof.
  intros Hv Hs. eapply Forall_impl; [exact Hs |]. intros s (?&?&?&(v&Hin&Hn)&?).
  repeat split; try done. exists v. rewrite Hv, elem_of_app. auto.
Qed.

Lemma addContainerAndSecret_sidecar secrets pod c className name namespace conf pod' r :
  c_name c = "telegraf" \/ c_name c = "telegraf-istio" -> conf <> EmptyString ->
  Forall (sidecar_secret pod name namespace) secrets ->
  addContainerAndSecret secrets pod c className name namespace conf = (pod', r) ->
  exists secrets', r = Ok secrets' /\ Forall (sidecar_secret pod' name namespace) secrets'.
Proof.
  intros Hc Hconf Hs Hadd. unfold addContainerAndSecret in Hadd.
  injection Hadd as <- <-. eexists. split; [done |].
  apply Forall_app. split.
  - eapply sidecar_secrets_more_volumes; [| exact Hs]. reflexivity.
  - constructor; [| constructor].
    split; [reflexivity |]. split; [| split; [| split]].
    + unfold telegrafSecretNames. simpl.
      destruct Hc as [-> | ->]; [left | right; left].
    + unfold get_or_empty, newSecret. cbn [s_labels]. rewrite lookup_insert_ne by discriminate.
      by rewrite lookup_singleton_eq.
    + exists (newVolume name (c_name c)). simpl. rewrite elem_of_app, list_elem_of_singleton.
      split; [by right | reflexivity].
    + intros require. by apply persist_newSecret_managed.
Qed.

Lemma addTelegrafSidecar_sidecar E h secrets pod name namespace pod' r :
  Forall (sidecar_secret pod name namespace) secrets ->
  addTelegrafSidecar E h secrets pod name namespace "telegraf" = (pod', r) ->
  forall secrets', r = Ok secrets' -> Forall (sidecar_secret pod' name namespace) secrets'.
Proof.
  intros Hs Hadd secrets' ->. unfold addTelegrafSidecar in Hadd.
  destruct (assembleConf E h pod _) as [conf|] eqn:Hconf; [| discriminate].
  destruct (newContainer E h pod "telegraf") as [c|] eqn:Hc; [| discriminate].
  destruct (addContainerAndSecret_sidecar secrets pod c
              (default (TelegrafDefaultClass h) (p_annotations pod !! TelegrafClass))
              name namespace conf pod' (Ok secrets'))
    as (s' & Heq & Hf); [left; by apply (newContainer_name E h pod) | by eapply assembleConf_nonempty | done | done |].
  by injection Heq as <-.
Qed.

Lemma addIstioTelegrafSidecar_sidecar E h secrets pod name namespace pod' r :
  Forall (sidecar_secret pod name namespace) secrets ->
  addIstioTelegrafSidecar E h secrets pod name namespace = (pod', r) ->
  forall secrets', r = Ok secrets' -> Forall (sidecar_secret pod' name namespace) secrets'.
Proof.
  intros Hs Hadd secrets' ->. unfold addIstioTelegrafSidecar in Hadd.
  destruct (getData E (IstioOutputClass h)) as [cd|]; [| discriminate].
  destruct (newIstioContainer E h pod "telegraf-istio") as [c|] eqn:Hc; [| discriminate].
  destruct (addContainerAndSecret_sidecar secrets pod c (IstioOutputClass h) name namespace
              (istioInputsConf +:+ nl +:+ nl +:+ cd) pod' (Ok secrets'))
    as (s' & Heq & Hf); [right; by apply (newIstioContainer_name E h pod) | | done | done |].
  - unfold istioInputsConf. discriminate.
  - by injection Heq as <-.
Qed.

Theorem addSidecars_sidecar_secrets E h (pod : Pod) name namespace pod' secrets :
  addSidecars E h pod name namespace = (pod', Ok secrets) ->
  Forall (sidecar_secret pod' name namespace) secrets.
Proof.
  unfold addSidecars. intros Hadd.
  destruct (shouldAddTelegrafSidecar pod) eqn:Hg1.
  - destruct (addTelegrafSidecar E h [] pod name namespace "telegraf") as [pod1 r1] eqn:H1.
    destruct r1 as [s1|]; [| discriminate].
    pose proof (addTelegrafSidecar_sidecar E h [] pod name namespace pod1 (Ok s1)
                  (Forall_nil_2 _) H1 s1 eq_refl) as Hs1.
    destruct (shouldAddIstioTelegrafSidecar h pod1).
    + by apply (addIstioTelegrafSidecar_sidecar E h s1 pod1 name namespace pod' (Ok secrets) Hs1 Hadd).
    + by injection Hadd as -> ->.
  - destruct (shouldAddIstioTelegrafSidecar h pod).
    + by apply (addIstioTelegrafSidecar_sidecar E h [] pod name namespace pod' (Ok secrets)
                  (Forall_nil_2 _) Hadd).
    + injection Hadd as -> <-. constructor.
Qed.

Lemma createOrUpdateSecret_frame E require st secret k :
  k <> secret_key secret -> (createOrUpdateSecret E require st secret).2 !! k = st !! k.
Proof.
  intros Hk. unfold createOrUpdateSecret, client_create, client_get, client_update.
  repeat case_match; simplify_eq/=; try done; by rewrite lookup_insert_ne.
Qed.

Lemma createOrUpdateSecrets_frame E require secrets : forall st k,
  k ∉ map secret_key secrets ->
  (createOrUpdateSecrets E require st secrets).2 !! k = st !! k.
Proof.
  induction secrets as [|secret rest IH]; intros st k Hk; simpl; [done |].
  cbn [map] in Hk. rewrite elem_of_cons in Hk.
  pose proof (createOrUpdateSecret_frame E require st secret k ltac:(tauto)) as Hstep.
  destruct (createOrUpdateSecret E require st secret) as [[u|e] st1]; simpl in *; [| exact Hstep].
  rewrite IH by tauto. exact Hstep.
Qed.

Lemma deleteSecrets_frame E names : forall failed st namespace k,
  k ∉ map (pair namespace) names ->
  (fold_left (fun acc name =>
       let '(failed, st0) := acc in
       match client_delete E st0 (namespace, name) with
       | (Err _, st1) => (true, st1)
       | (Ok _, st1) => (failed, st1)
       end) names (failed, st)).2 !! k = st !! k.
Proof.
  induction names as [|n names IH]; intros failed st namespace k Hk; cbn [fold_left]; [done |].
  cbn [map] in Hk. rewrite elem_of_cons in Hk.
  assert (Hd : (client_delete E st (namespace, n)).2 !! k = st !! k).
  { unfold client_delete. repeat case_match; try done. simpl.
    rewrite lookup_delete_ne; [done |]. intros Heq. subst k. tauto. }
  destruct (client_delete E st (namespace, n)) as [[] st1]; rewrite IH by tauto; exact Hd.
Qed.

Lemma sidecar_secret_key pod name namespace secrets k :
  Forall (sidecar_secret pod name namespace) secrets ->
  k <> (namespace, secretName "telegraf" name) -> k <> (namespace, secretName "telegraf-istio" name) ->
  k ∉ map secret_key secrets.
Proof.
  intros Hall H1 H2 Hk. apply list_elem_of_In, in_map_iff in Hk as (s & <- & Hs).
  apply list_elem_of_In in Hs.
  rewrite Forall_forall in Hall. destruct (Hall s Hs) as (Hns & Hn & _).
  unfold secret_key in *. rewrite Hns in H1, H2. unfold telegrafSecretNames in Hn.
  rewrite elem_of_cons, list_elem_of_singleton in Hn. destruct Hn as [Hn | Hn]; rewrite Hn in *; done.
Qed.

Lemma Handle_admission_frame E a st req pod0 k :
  req_operation req <> Delete -> req_pod req = Some pod0 ->
  let name := if String.eqb (p_name pod0) EmptyString
              then GenerateName E (p_generate_name pod0) else p_name pod0 in
  k <> (req_namespace req, secretName "telegraf" name) ->
  k <> (req_namespace req, secretName "telegraf-istio" name) ->
  (Handle E a st req).2 !! k = st !! k.
Proof.
  intros Hop Hpod. unfold Handle. rewrite Hpod.
  set (pod := if String.eqb (p_name pod0) EmptyString then _ else pod0).
  assert (Hname : p_name pod = if String.eqb (p_name pod0) EmptyString
                               then GenerateName E (p_generate_name pod0) else p_name pod0)
    by (subst pod; by case_match).
  cbv zeta. rewrite <- Hname. intros H1 H2.
  destruct (addSidecars E (SidecarHandler a) pod (p_name pod) (req_namespace req))
    as [pod' [secrets|e]] eqn:Hadd.
  - pose proof (addSidecars_sidecar_secrets E _ pod _ _ pod' secrets Hadd) as Hall.
    pose proof (sidecar_secret_key _ _ _ _ k Hall H1 H2) as Hk.
    destruct (req_operation req); try congruence;
      destruct (skip (SidecarHandler a) pod0); try done;
      pose proof (createOrUpdateSecrets_frame E (RequireAnnotationsForSecret a) secrets st k Hk) as Hf;
      destruct (createOrUpdateSecrets E (RequireAnnotationsForSecret a) st secrets) as [[] st1];
      done.
  - destruct (req_operation req); try congruence;
      destruct (skip (SidecarHandler a) pod0); try done; destruct e; done.
Qed.

(** X11: a request, of any operation, changes the store at most under the
    two sidecar secret names of the request's namespace. *)
Theorem Handle_only_sidecar_secrets E a st req k :
  (forall name, k <> (req_namespace req, secretName "telegraf" name) /\
                k <> (req_namespace req, secretName "telegraf-istio" name)) ->
  (Handle E a st req).2 !! k = st !! k.
Proof.
  intros Hk. destruct (req_operation req) eqn:Hop.
  1, 2, 4:
    destruct (req_pod req) as [pod0|] eqn:Hpod;
    [| unfold Handle; rewrite Hop, Hpod; done];
    apply (Handle_admission_frame E a st req pod0 k ltac:(congruence) Hpod);
    apply Hk.
  unfold Handle. rewrite Hop. unfold deleteSecrets.
  destruct (Hk (req_name req)) as [H1 H2].
  pose proof (deleteSecrets_frame E (telegrafSecretNames (req_name req)) false st (req_namespace req) k)
    as Hf.
  destruct (fold_left _ _ _) as [[] st1]; apply Hf;
    unfold telegrafSecretNames; cbn [map]; rewrite elem_of_cons, list_elem_of_singleton; tauto.
Qed.

Lemma createOrUpdateSecret_stored E require st secret k :
  (createOrUpdateSecret E require st secret).2 !! k = st !! k \/
  (secret_key secret = k /\ (createOrUpdateSecret E require st secret).2 !! k = Some (persist secret)).
Proof.
  destruct (decide (secret_key secret = k)) as [<-|Hne].
  - unfold createOrUpdateSecret, client_create, client_update.
    repeat case_match; simplify_eq/=; try (by left); right; by rewrite lookup_insert_eq.
  - left. apply createOrUpdateSecret_frame. congruence.
Qed.

Lemma createOrUpdateSecrets_stored E require secrets : forall st k,
  (createOrUpdateSecrets E require st secrets).2 !! k = st !! k \/
  exists s, s ∈ secrets /\ secret_key s = k /\
    (createOrUpdateSecrets E require st secrets).2 !! k = Some (persist s).
Proof.
  induction secrets as [|secret rest IH]; intros st k; simpl; [by left |].
  destruct (createOrUpdateSecret_stored E require st secret k) as [Hst | [Hkey Hst]];
    destruct (createOrUpdateSecret E require st secret) as [[u|e] st1]; simpl in *.
  - destruct (IH st1 k) as [H | (s & Hs & Hk & H)]; [left; congruence |].
    right. exists s. split; [by apply elem_of_cons; right | done].
  - by left.
  - destruct (IH st1 k) as [H | (s & Hs & Hk & H)].
    + right. exists secret. split; [by apply elem_of_cons; left | split; [done | congruence]].
    + right. exists s. split; [by apply elem_of_cons; right | done].
  - right. exists secret. split; [by apply elem_of_cons; left | done].
Qed.

(** X12: a request changes a stored entry in one of two ways.  A Delete
    removes it.  An admission stores a managed secret (type Opaque, one
    non-empty telegraf.conf entry, the operator's annotation) in the
    request's namespace, under a sidecar name of the pod its label names. *)
Theorem Handle_stores_managed_secrets E a st req k :
  let st' := (Handle E a st req).2 in
  st' !! k = st !! k \/
  (req_operation req = Delete /\ st' !! k = None) \/
  (req_operation req <> Delete /\ exists s, st' !! k = Some s /\
     s_namespace s = req_namespace req /\
     s_name s ∈ telegrafSecretNames (get_or_empty (s_labels s) TelegrafSecretLabelPod) /\
     forall require, isSecretManagedByTelegrafOperator require s = true).
Proof.
  intros st'. subst st'. destruct (req_operation req) eqn:Hop.
  3: { unfold Handle. rewrite Hop. unfold deleteSecrets.
       enough (Hgen : forall names failed st0,
                 (fold_left (fun acc name =>
                    let '(failed, st0) := acc in
                    match client_delete E st0 (req_namespace req, name) with
                    | (Err _, st1) => (true, st1)
                    | (Ok _, st1) => (failed, st1)
                    end) names (failed, st0)).2 !! k = st0 !! k \/
                 (fold_left (fun acc name =>
                    let '(failed, st0) := acc in
                    match client_delete E st0 (req_namespace req, name) with
                    | (Err _, st1) => (true, st1)
                    | (Ok _, st1) => (failed, st1)
                    end) names (failed, st0)).2 !! k = None).
       { destruct (Hgen (telegrafSecretNames (req_name req)) false st) as [H | H];
           destruct (fold_left _ _ _) as [[] st1]; simpl in *; [by left | by left | | ];
           right; left; done. }
       induction names as [|n names IH]; intros failed st0; cbn [fold_left]; [by left |].
       assert (Hd : (client_delete E st0 (req_namespace req, n)).2 !! k = st0 !! k \/
                    (client_delete E st0 (req_namespace req, n)).2 !! k = None).
       { unfold client_delete. repeat case_match; try (by left). simpl.
         destruct (decide (k = (req_namespace req, n))) as [->|Hne].
         - right. by rewrite lookup_delete_eq.
         - left. by rewrite lookup_delete_ne. }
       destruct (client_delete E st0 (req_namespace req, n)) as [[u|e] st1]; simpl in Hd;
         [destruct (IH failed st1) as [H | H] | destruct (IH true st1) as [H | H]];
         rewrite H; destruct Hd; auto. }
  all: unfold Handle; rewrite Hop; destruct (req_pod req) as [pod0|]; [| by left];
    destruct (skip _ pod0); [by left |];
    set (pod := if String.eqb (p_name pod0) EmptyString then _ else pod0);
    destruct (addSidecars E (SidecarHandler a) pod (p_name pod) (req_namespace req))
      as [pod' [secrets|e]] eqn:Hadd; [| destruct e; by left].
  3: { simpl. by left. }
  all: pose proof (addSidecars_sidecar_secrets E _ pod _ _ pod' secrets Hadd) as Hall;
    rewrite Forall_forall in Hall;
    destruct (createOrUpdateSecrets_stored E (RequireAnnotationsForSecret a) secrets st k)
      as [H | (s0 & Hs0 & Hk & H)];
    destruct (createOrUpdateSecrets E (RequireAnnotationsForSecret a) st secrets) as [[] st1];
    simpl in *; try (by left);
    right; right; (split; [congruence |]); exists (persist s0); (split; [done |]);
    destruct (Hall s0 Hs0) as (Hns & Hn & Hl & _ & Hm);
    (split; [done |]); (split; [| done]);
    unfold get_or_empty in *; cbn [persist s_labels s_name]; rewrite Hl; done.
Qed.

Lemma Handle_delete_store E a st req :
  req_operation req = Delete ->
  (forall k, api_fault E OpDelete k = None) ->
  let k1 := (req_namespace req, secretName "telegraf" (req_name req)) in
  let k2 := (req_namespace req, secretName "telegraf-istio" (req_name req)) in
  Handle E a st req =
    (Allowed (if bool_decide (is_Some (st !! k1) /\ is_Some (st !! k2))
              then "telegraf-injector doesn't block pod deletions"
              else "telegraf-injector couldn't delete one or more secrets"),
     delete k2 (delete k1 st)).
Proof.
  intros Hop Hnf. unfold Handle. rewrite Hop.
  cbv zeta. unfold deleteSecrets, telegrafSecretNames. simpl.
  assert (Hk12 : (req_namespace req, secretName "telegraf" (req_name req))
                 <> (req_namespace req, secretName "telegraf-istio" (req_name req)))
    by (intros Heq; injection Heq; unfold secretName; simpl; discriminate).
  unfold client_delete. rewrite !Hnf.
  destruct (st !! (req_namespace req, secretName "telegraf" (req_name req))) eqn:H1;
    rewrite ?lookup_delete_ne by done;
    destruct (st !! (req_namespace req, secretName "telegraf-istio" (req_name req))) eqn:H2;
    rewrite ?bool_decide_true, ?bool_decide_false by (intros [[? ?] [? ?]]; congruence || eauto);
    try reflexivity.
  + f_equal. symmetry. apply delete_id. by rewrite lookup_delete_ne.
  + f_equal. by rewrite (delete_id st _ H1).
  + f_equal. rewrite (delete_id st _ H1). symmetry. by apply delete_id.
Qed.

(** X13: [Handle] never blocks a deletion: a Delete request is always
    allowed.  Without API failures it deletes both sidecar secrets of the
    pod, and the message reports a failure when either secret was absent. *)
Theorem Handle_delete E a st req :
  req_operation req = Delete ->
  (exists message st', Handle E a st req = (Allowed message, st')) /\
  ((forall k, api_fault E OpDelete k = None) ->
   let k1 := (req_namespace req, secretName "telegraf" (req_name req)) in
   let k2 := (req_namespace req, secretName "telegraf-istio" (req_name req)) in
   Handle E a st req =
     (Allowed (if bool_decide (is_Some (st !! k1) /\ is_Some (st !! k2))
               then "telegraf-injector doesn't block pod deletions"
               else "telegraf-injector couldn't delete one or more secrets"),
      delete k2 (delete k1 st))).
Proof.
  intros Hop. split.
  - unfold Handle. rewrite Hop. destruct (deleteSecrets _ _ _ _) as [[] st1]; eauto.
  - intros Hnf. exact (Handle_delete_store E a st req Hop Hnf).
Qed.

Section readmission.
Variable E : collaborators.
Hypothesis no_fault : forall op k, api_fault E op k = None.

Lemma createOrUpdateSecret_nofault require st s :
  createOrUpdateSecret E require st s = (Ok tt, <[secret_key s := persist s]> st) \/
  exists e, createOrUpdateSecret E require st s = (Err e, st).
Proof.
  unfold createOrUpdateSecret, client_create, client_get, client_update. rewrite !no_fault.
  destruct (st !! secret_key s) as [e0|] eqn:Hl; [| by left].
  simpl. rewrite Hl.
  destruct (isSecretManagedByTelegrafOperator require e0); [| right; eauto].
  by left.
Qed.

Lemma createOrUpdateSecrets_nofault_ok require secrets : forall st u st1,
  createOrUpdateSecrets E require st secrets = (Ok u, st1) ->
  st1 = fold_left (fun m s => <[secret_key s := persist s]> m) secrets st.
Proof.
  induction secrets as [|s rest IH]; intros st u st1; simpl; [congruence |].
  destruct (createOrUpdateSecret_nofault require st s) as [-> | [e ->]]; [apply IH | done].
Qed.

Lemma fold_insert_untouched (l : list Secret) : forall (m : store) k,
  k ∉ map secret_key l ->
  fold_left (fun m s => <[secret_key s := persist s]> m) l m !! k = m !! k.
Proof.
  induction l as [|s l IH]; intros m k Hk; simpl; [done |].
  cbn [map] in Hk. rewrite elem_of_cons in Hk. rewrite IH by tauto. rewrite lookup_insert_ne; [done |].
  intros Heq. subst k. tauto.
Qed.

Lemma fold_insert_touched (l : list Secret) : forall (m m' : store) k,
  k ∈ map secret_key l ->
  fold_left (fun m s => <[secret_key s := persist s]> m) l m !! k
  = fold_left (fun m s => <[secret_key s := persist s]> m) l m' !! k /\
  exists s, s ∈ l /\ fold_left (fun m s => <[secret_key s := persist s]> m) l m !! k = Some (persist s).
Proof.
  induction l as [|s l IH]; intros m m' k Hk; simpl; [by apply not_elem_of_nil in Hk |].
  destruct (decide (k ∈ map secret_key l)) as [Hin|Hnin].
  - destruct (IH (<[secret_key s := persist s]> m) (<[secret_key s := persist s]> m') k Hin)
      as [Heq (s' & Hs' & Hl)].
    split; [done |]. exists s'. split; [by right | done].
  - cbn [map] in Hk. rewrite elem_of_cons in Hk. destruct Hk as [-> | Hk]; [| done].
    rewrite !fold_insert_untouched by done. rewrite !lookup_insert_eq.
    split; [done |]. exists s. split; [left | done].
Qed.

Lemma fold_insert_idem (l : list Secret) (m : store) :
  let f := fun m => fold_left (fun m s => <[secret_key s := persist s]> m) l m in
  f (f m) = f m.
Proof.
  simpl. apply map_eq. intros k.
  destruct (decide (k ∈ map secret_key l)) as [Hin|Hnin].
  - by destruct (fold_insert_touched l (fold_left (fun m s => <[secret_key s := persist s]> m) l m) m k Hin).
  - by rewrite fold_insert_untouched.
Qed.

Lemma createOrUpdateSecrets_nofault_managed require (all : list Secret) :
  (forall s, s ∈ all -> isSecretManagedByTelegrafOperator require (persist s) = true) ->
  forall l st0, (forall s, s ∈ l -> st0 !! secret_key s = None \/
                          exists s', s' ∈ all /\ st0 !! secret_key s = Some (persist s')) ->
  (forall s, s ∈ l -> s ∈ all) ->
  createOrUpdateSecrets E require st0 l
  = (Ok tt, fold_left (fun m s => <[secret_key s := persist s]> m) l st0).
Proof.
  intros Hm l. induction l as [|s l IH]; intros st0 Hst Hall; simpl; [done |].
  assert (Hstep : createOrUpdateSecret E require st0 s = (Ok tt, <[secret_key s := persist s]> st0)).
  { unfold createOrUpdateSecret, client_create, client_get, client_update. rewrite !no_fault.
    destruct (Hst s ltac:(left)) as [Hl | (s' & Hs' & Hl)]; rewrite Hl; [done |].
    simpl. rewrite ?Hl. rewrite (Hm s' Hs'). simpl. rewrite ?Hl. reflexivity. }
  rewrite Hstep. apply IH.
  - intros s'' Hs''. destruct (decide (secret_key s'' = secret_key s)) as [Heq|Hne].
    + right. exists s. rewrite Heq, lookup_insert_eq. split; [apply Hall; left | done].
    + rewrite lookup_insert_ne by done. apply Hst. by right.
  - intros s'' Hs''. apply Hall. by right.
Qed.

End readmission.

(** X15: without API failures, admitting a named pod again after a
    successful Create or Update admission gives the same patch and leaves
    the store unchanged. *)
Theorem Handle_readmission_idempotent E a st req pod0 p st1 :
  (forall op k, api_fault E op k = None) ->
  req_operation req = Create \/ req_operation req = Update ->
  req_pod req = Some pod0 -> p_name pod0 <> EmptyString ->
  Handle E a st req = (PatchResponse p, st1) ->
  Handle E a st1 req = (PatchResponse p, st1).
Proof.
  intros Hnf Hop Hpod _. unfold Handle. rewrite Hpod.
  set (pod := if String.eqb (p_name pod0) EmptyString then _ else pod0).
  cbv zeta.
  destruct (addSidecars E (SidecarHandler a) pod (p_name pod) (req_namespace req))
    as [pod' [secrets|e]] eqn:Hadd.
  - pose proof (addSidecars_sidecar_secrets E _ pod _ _ pod' secrets Hadd) as Hall.
    assert (Hm : forall s, s ∈ secrets ->
              isSecretManagedByTelegrafOperator (RequireAnnotationsForSecret a) (persist s) = true).
    { intros s Hs. rewrite Forall_forall in Hall. by destruct (Hall s Hs) as (_&_&_&_&?). }
    assert (Hgoal : forall st1', createOrUpdateSecrets E (RequireAnnotationsForSecret a) st secrets
                                 = (Ok tt, st1') ->
              createOrUpdateSecrets E (RequireAnnotationsForSecret a) st1' secrets = (Ok tt, st1')).
    { intros st1' Hc.
      pose proof (createOrUpdateSecrets_nofault_ok E Hnf _ secrets st tt st1' Hc) as ->.
      rewrite (createOrUpdateSecrets_nofault_managed E Hnf _ secrets Hm secrets).
      - f_equal. apply (fold_insert_idem secrets st).
      - intros s Hs. right.
        assert (Hk : secret_key s ∈ map secret_key secrets).
        { apply list_elem_of_In, in_map. by apply list_elem_of_In. }
        destruct (fold_insert_touched secrets st st (secret_key s) Hk) as [_ (s' & Hs' & Hl)].
        eauto.
      - done. }
    destruct Hop as [Hop | Hop]; rewrite Hop;
      destruct (skip (SidecarHandler a) pod0); try done;
      destruct (createOrUpdateSecrets E (RequireAnnotationsForSecret a) st secrets) as [[[]|e] st1'] eqn:Hc;
      try done; intros Hr; injection Hr as <- <-; by rewrite (Hgoal st1' eq_refl).
  - destruct Hop as [Hop | Hop]; rewrite Hop;
      destruct (skip (SidecarHandler a) pod0); try done; destruct e; done.
Qed.

Lemma secretNames_distinct (namespace name : string) :
  (namespace, secretName "telegraf" name) <> (namespace, secretName "telegraf-istio" name).
Proof. intros Heq. injection Heq. unfold secretName. simpl. discriminate. Qed.

(** X14: admitting a named pod and then deleting it, with no delete
    failure, leaves the store as it was before the admission, minus the
    two sidecar secret entries of the pod. *)
Theorem Handle_admit_then_delete E a st req pod0 :
  (forall k, api_fault E OpDelete k = None) ->
  req_operation req <> Delete -> req_pod req = Some pod0 -> p_name pod0 <> EmptyString ->
  let st1 := (Handle E a st req).2 in
  (Handle E a st1 (mkRequest Delete (p_name pod0) (req_namespace req) None)).2
  = delete (req_namespace req, secretName "telegraf-istio" (p_name pod0))
      (delete (req_namespace req, secretName "telegraf" (p_name pod0)) st).
Proof.
  intros Hnf Hop Hpod Hname st1.
  rewrite (Handle_delete_store E a st1 (mkRequest Delete (p_name pod0) (req_namespace req) None)
             eq_refl Hnf). simpl. apply map_eq. intros k.
  destruct (decide (k = (req_namespace req, secretName "telegraf" (p_name pod0)))) as [->|H1];
    [do 2 (rewrite lookup_delete_ne by (apply not_eq_sym, secretNames_distinct);
           rewrite lookup_delete_eq); done |].
  destruct (decide (k = (req_namespace req, secretName "telegraf-istio" (p_name pod0)))) as [->|H2];
    [by rewrite !lookup_delete_eq |].
  rewrite !lookup_delete_ne by congruence.
  apply (Handle_admission_frame E a st req pod0 k Hop Hpod);
    destruct (String.eqb_spec (p_name pod0) EmptyString); done.
Qed.

Lemma prefix_app_self (p r : string) : String.prefix p (p +:+ r) = true.
Proof.
  induction p as [|c p IH]; [by destruct r |]. rewrite string_app_cons. simpl.
  destruct (ascii_dec c c); [exact IH | done].
Qed.

Lemma prefix_true_app (p s : string) : String.prefix p s = true -> exists r, s = p +:+ r.
Proof.
  revert s. induction p as [|c p IH]; intros s Hp; [by exists s |].
  destruct s as [|d s]; [discriminate |]. simpl in Hp.
  destruct (ascii_dec c d) as [<-|]; [| discriminate].
  destruct (IH s Hp) as [r ->]. exists r. by rewrite string_app_cons.
Qed.

Lemma substring_full (s : string) : String.substring 0 (String.length s) s = s.
Proof. induction s as [|c s IH]; [done | simpl; by rewrite IH]. Qed.

Lemma length_app_string (p r : string) : String.length (p +:+ r) = (String.length p + String.length r)%nat.
Proof. induction p as [|c p IH]; [done | rewrite string_app_cons; simpl; by rewrite IH]. Qed.

Lemma TrimPrefix_app (p r : string) : TrimPrefix (p +:+ r) p = r.
Proof.
  unfold TrimPrefix. rewrite prefix_app_self, length_app_string.
  replace (String.length p + String.length r - String.length p)%nat with (String.length r) by lia.
  induction p as [|c p IH]; [apply substring_full | exact IH].
Qed.

Theorem AnnotationsWithPrefix_lookup (ann : gmap string string) (prefix k : string) :
  AnnotationsWithPrefix ann prefix !! k = ann !! (prefix +:+ k).
Proof.
  unfold AnnotationsWithPrefix.
  destruct (list_to_map _ !! k) as [x|] eqn:Hl.
  - apply elem_of_list_to_map_2, list_elem_of_omap in Hl as ([key v] & Hin & Hf).
    simpl in Hf. destruct (HasPrefix key prefix) eqn:Hp; [| discriminate].
    injection Hf as Hk <-. apply elem_of_map_to_list in Hin.
    destruct (prefix_true_app _ _ Hp) as [r ->]. rewrite TrimPrefix_app in Hk. by subst r.
  - apply not_elem_of_list_to_map in Hl.
    destruct (ann !! (prefix +:+ k)) as [v|] eqn:Hv; [exfalso | done].
    apply Hl. apply list_elem_of_fmap. exists (k, v). split; [done |].
    apply list_elem_of_omap. exists (prefix +:+ k, v). split; [by apply elem_of_map_to_list |].
    simpl. unfold HasPrefix. by rewrite prefix_app_self, TrimPrefix_app.
Qed.

Lemma split_first_dot_spec (s n k : string) :
  split_first_dot s = Some (n, k) <-> s = n +:+ "." +:+ k /\ Contains n "." = false.
Proof.
  revert s. induction n as [|c n IH]; intros s.
  - rewrite string_app_nil_l. change ("." +:+ k) with (String "." k).
    destruct s as [|d s]; simpl; [split; [discriminate | by intros []] |].
    destruct (Ascii.eqb_spec d ".") as [->|Hd].
    + split; [by intros [= <-] | by intros [[= <-] _]].
    + split; [| by intros [[= ->] _]].
      destruct (split_first_dot s) as [[a b]|]; discriminate.
  - destruct s as [|d s]; cbn [split_first_dot]; [split; [discriminate | by intros []] |].
    destruct (Ascii.eqb_spec d ".") as [->|Hd].
    + split; [discriminate |]. intros [Heq Hc]. rewrite string_app_cons in Heq. injection Heq as Hc1 _. subst c. assert (Hdot : Contains (String "." n) "." = true) by (destruct n; reflexivity). congruence.
    + specialize (IH s). destruct (split_first_dot s) as [[a b]|] eqn:Hs.
      * split.
        -- intros [= -> -> ->]. destruct (proj1 IH eq_refl) as [-> Hc]. split; [done |].
           change (Contains (String c n) ".") with (String.prefix "." (String c n) || Contains n "."). rewrite Hc, orb_false_r. cbn [String.prefix]. destruct (ascii_dec "." c); [congruence | done].
        -- intros [Heq Hc]. rewrite string_app_cons in Heq. injection Heq as <- Heq.
           change (Contains (String d n) ".") with (String.prefix "." (String d n) || Contains n ".") in Hc.
           apply orb_false_iff in Hc as [_ Hc].
           by injection (proj2 IH (conj Heq Hc)) as -> ->.
      * split; [discriminate |]. intros [Heq Hc]. rewrite string_app_cons in Heq.
        injection Heq as <- Heq.
        change (Contains (String d n) ".") with (String.prefix "." (String d n) || Contains n ".") in Hc.
        apply orb_false_iff in Hc as [_ Hc].
        specialize (proj2 IH (conj Heq Hc)). discriminate.
Qed.

Lemma elem_of_env_map (F : string -> env_source) (m : gmap string string) x src :
  mkEnvVar x src ∈ map (fun kv : string * string => mkEnvVar kv.1 (F kv.2)) (map_to_list m) <->
  exists v, src = F v /\ m !! x = Some v.
Proof.
  rewrite list_elem_of_In, in_map_iff. split.
  - intros ([k v] & Heq & Hin). injection Heq as -> <-. exists v. split; [done |].
    apply elem_of_map_to_list, list_elem_of_In. exact Hin.
  - intros (v & -> & Hv). exists (x, v). split; [done |].
    apply list_elem_of_In, elem_of_map_to_list. exact Hv.
Qed.

Lemma elem_of_env_omap (F : string -> string -> env_source) (m : gmap string string) x src :
  mkEnvVar x src ∈ omap (fun kv : string * string =>
                           match split_first_dot kv.2 with
                           | Some (n, k) => Some (mkEnvVar kv.1 (F n k))
                           | None => None
                           end) (map_to_list m) <->
  exists n k, src = F n k /\ m !! x = Some (n +:+ "." +:+ k) /\ Contains n "." = false.
Proof.
  rewrite list_elem_of_omap. split.
  - intros ([key v] & Hin & Hf). simpl in Hf.
    destruct (split_first_dot v) as [[n k]|] eqn:Hs; [| discriminate].
    injection Hf as -> <-. apply split_first_dot_spec in Hs as [-> Hc].
    exists n, k. split; [done |]. split; [by apply elem_of_map_to_list | done].
  - intros (n & k & -> & Hv & Hc). exists (x, n +:+ "." +:+ k).
    split; [by apply elem_of_map_to_list |]. simpl.
    by rewrite (proj2 (split_first_dot_spec _ n k) (conj eq_refl Hc)).
Qed.

(** X7: the environment of the telegraf container.  It holds NODENAME from
    spec.nodeName, and one variable per annotation under each env prefix,
    named by the rest of the key.  A config-map or secret reference is
    added only when the value splits at its first dot into a dot-free name
    and a key. *)
Theorem newContainer_env E h (pod : Pod) containerName c :
  newContainer E h pod containerName = Ok c ->
  let ann := p_annotations pod in
  forall x,
    (forall f, mkEnvVar x (EnvFieldRef f) ∈ c_env c <->
               (x = "NODENAME" /\ f = "spec.nodeName") \/
               ann !! (TelegrafEnvFieldRefPrefix +:+ x) = Some f) /\
    (forall v, mkEnvVar x (EnvValue v) ∈ c_env c <->
               ann !! (TelegrafEnvLiteralPrefix +:+ x) = Some v) /\
    (forall n k, mkEnvVar x (EnvConfigMapKeyRef n k) ∈ c_env c <->
                 ann !! (TelegrafEnvConfigMapKeyRefPrefix +:+ x) = Some (n +:+ "." +:+ k) /\
                 Contains n "." = false) /\
    (forall n k, mkEnvVar x (EnvSecretKeyRef n k) ∈ c_env c <->
                 ann !! (TelegrafEnvSecretKeyRefPrefix +:+ x) = Some (n +:+ "." +:+ k) /\
                 Contains n "." = false).
Proof.
  intros Hc. unfold newContainer, mbind, result_bind in Hc. repeat case_match; try discriminate.
  injection Hc as <-. intros ann x. cbn [c_env].
  split_and!; intros; rewrite elem_of_cons, !elem_of_app,
    (elem_of_env_map EnvFieldRef), (elem_of_env_map EnvValue),
    (elem_of_env_omap EnvConfigMapKeyRef), (elem_of_env_omap EnvSecretKeyRef),
    !AnnotationsWithPrefix_lookup; unfold nodeNameEnv; split.
  - intros [[= -> ->] | [(v & [= ->] & Hv) | [(v & [=] & _) | [(? & ? & [=] & _) | (? & ? & [=] & _)]]]];
      [by left | by right].
  - intros [[-> ->] | Hv]; [by left | right; left; eauto].
  - intros [[=] | [(w & [=] & _) | [(w & [= ->] & Hv) | [(? & ? & [=] & _) | (? & ? & [=] & _)]]]].
    exact Hv.
  - intros Hv. right; right; left; eauto.
  - intros [[=] | [(w & [=] & _) | [(w & [=] & _) | [(? & ? & [= -> ->] & Hv & Hc) | (? & ? & [=] & _)]]]].
    all: done.
  - intros [Hv Hc]. right; right; right; left; eauto.
  - intros [[=] | [(w & [=] & _) | [(w & [=] & _) | [(? & ? & [=] & _) | (? & ? & [= -> ->] & Hv & Hc)]]]].
    all: done.
  - intros [Hv Hc]. right; right; right; right; eauto.
Qed.

Lemma validateClassData_fold E (fs : list dirEntry) v a :
  fold_left (fun acc file => let '(valid, available) := acc in
               match de_stat file with
               | Some true => match de_read file with
                              | Some data => (valid && toml_parse E data, true)
                              | None => (valid, available) end
               | _ => (valid, available) end) fs (v, a) =
  (v && forallb (fun file => match de_stat file, de_read file with
                             | Some true, Some data => toml_parse E data
                             | _, _ => true end) fs,
   a || existsb (fun file => match de_stat file, de_read file with
                             | Some true, Some _ => true
                             | _, _ => false end) fs).
Proof.
  revert v a. induction fs as [|f fs IH]; intros v a; simpl.
  - by rewrite andb_true_r, orb_false_r.
  - destruct (de_stat f) as [[]|]; [destruct (de_read f)|..]; rewrite IH; f_equal;
      by rewrite ?andb_assoc, ?andb_true_l, ?orb_true_l, ?orb_false_l, ?orb_true_r.
Qed.

(** X9: [validateClassData] succeeds exactly when at least one regular
    file of the class directory can be read and every readable regular
    file parses.  A readable regular file that does not parse yields the
    'contains errors' error, whatever the other files. *)
Theorem validateClassData_spec E files :
  let fs := default [] files in
  let readable file := de_stat file = Some true /\ is_Some (de_read file) in
  (validateClassData E files = Ok tt <->
   (exists file, file ∈ fs /\ readable file) /\
   (forall file data, file ∈ fs -> de_stat file = Some true -> de_read file = Some data ->
                      toml_parse E data = true)) /\
  ((exists file data, file ∈ fs /\ de_stat file = Some true /\ de_read file = Some data /\
                      toml_parse E data = false) ->
   validateClassData E files = Err (Errorf "class data contains errors ; unable to continue")).
Proof.
  intros fs readable. unfold validateClassData. fold fs.
  rewrite validateClassData_fold. simpl.
  split.
  - destruct (forallb _ fs) eqn:Hall; simpl; [| split; [discriminate|]].
    + rewrite forallb_forall in Hall.
      destruct (existsb _ fs) eqn:Hex; simpl.
      * rewrite existsb_exists in Hex. split; [intros _ | done]. split.
        -- destruct Hex as (f & Hin & Hf). exists f. rewrite list_elem_of_In. split; [done|].
           unfold readable. destruct (de_stat f) as [[]|], (de_read f); done.
        -- intros f d Hin Hs Hr. apply list_elem_of_In, Hall in Hin. by rewrite Hs, Hr in Hin.
      * split; [discriminate|]. intros [(f & Hin & Hs & [d Hr]) _].
        assert (Hne : existsb (fun file => match de_stat file, de_read file with
                             | Some true, Some _ => true | _, _ => false end) fs = true).
        { apply existsb_exists. exists f. rewrite <- list_elem_of_In. by rewrite Hs, Hr. }
        congruence.
    + intros [_ Hok]. apply not_true_iff_false in Hall. exfalso. apply Hall. apply (proj2 (forallb_forall _ _)).
      intros f Hin. apply list_elem_of_In in Hin.
      destruct (de_stat f) as [[]|] eqn:Hs, (de_read f) eqn:Hr; try done. by apply (Hok f).
  - intros (f & d & Hin & Hs & Hr & Hp).
    replace (forallb _ fs) with false; [done|]. symmetry. apply not_true_iff_false.
    rewrite forallb_forall. intros Hall. apply list_elem_of_In, Hall in Hin.
    rewrite Hs, Hr in Hin. congruence.
Qed.

Lemma shouldAddIstioTelegrafSidecar_fields h (p q : Pod) :
  p_annotations p = p_annotations q -> p_containers p = p_containers q ->
  shouldAddIstioTelegrafSidecar h p = shouldAddIstioTelegrafSidecar h q.
Proof.
  intros Ha Hc. unfold shouldAddIstioTelegrafSidecar, podHasContainerName. by rewrite Ha, Hc.
Qed.

(** X10: the istio sidecar parses the handler's four default quantities
    unconditionally.  An empty default CPU request, which
    [validateRequestsAndLimits] accepts and [newContainer] treats as no
    request, makes an admission that adds only the istio sidecar fail with
    a 400 and the quantity error, the store untouched. *)
Theorem istio_empty_quantity_rejected E (a : podInjector) st req pod0 :
  let h := SidecarHandler a in
  RequestsCPU h = "" -> ParseQuantity E "" = None ->
  req_operation req <> Delete -> req_pod req = Some pod0 ->
  shouldAddTelegrafSidecar pod0 = false -> shouldAddIstioTelegrafSidecar h pod0 = true ->
  is_Some (getData E (IstioOutputClass h)) ->
  Handle E a st req = (Errored 400 (ErrQuantity ""), st).
Proof.
  intros h Hcpu Hparse Hop Hpod Hg1 Hg2 [classData Hcd].
  unfold Handle. rewrite Hpod.
  assert (Hskip : skip h pod0 = false) by (unfold skip; by rewrite Hg2, andb_false_r).
  set (pod := if String.eqb (p_name pod0) EmptyString then _ else pod0).
  assert (Hann : p_annotations pod = p_annotations pod0) by (subst pod; by case_match).
  assert (Hcs : p_containers pod = p_containers pod0) by (subst pod; by case_match).
  assert (Hadd : addSidecars E h pod (p_name pod) (req_namespace req)
                 = (pod, Err (ErrQuantity ""))).
  { unfold addSidecars.
    rewrite (shouldAddTelegrafSidecar_fields pod pod0 Hann Hcs), Hg1.
    rewrite (shouldAddIstioTelegrafSidecar_fields h pod pod0 Hann Hcs), Hg2.
    unfold addIstioTelegrafSidecar. rewrite Hcd.
    unfold newIstioContainer, mbind, result_bind. rewrite Hcpu, Hparse. reflexivity. }
  destruct (req_operation req); try congruence; fold h; rewrite Hskip; simpl; fold pod;
    rewrite Hadd; reflexivity.
Qed.

Lemma updateSecret_update_shape u ns secret s' :
  Updater.updateSecret u ns secret = Updater.StepUpdate s' ->
  exists d conf, s_data secret = Some d /\
    s' = Updater.with_data secret (<[ TelegrafSecretDataKey := conf ]> d) /\
    data_get (s_data secret) TelegrafSecretDataKey <> conf.
Proof.
  unfold Updater.updateSecret. repeat case_match; intros Hs; try discriminate.
  injection Hs as <-. eexists _, _. split; [done|]. split; [done|].
  intros Heq. rewrite Heq, String.eqb_refl in *. discriminate.
Qed.

Lemma updateSecrets_written_shape u ns secrets s' :
  s' ∈ (Updater.updateSecrets u ns secrets).1 ->
  exists secret d conf, secret ∈ secrets /\ s_data secret = Some d /\
    s' = Updater.with_data secret (<[ TelegrafSecretDataKey := conf ]> d) /\
    data_get (s_data secret) TelegrafSecretDataKey <> conf.
Proof.
  induction secrets as [|secret rest IH]; simpl; [by rewrite elem_of_nil|].
  destruct (Updater.updateSecret u ns secret) as [e| | |s] eqn:Hstep.
  - by rewrite elem_of_nil.
  - by rewrite elem_of_nil.
  - intros Hin. destruct (IH Hin) as (x & d & conf & Hx & Hrest).
    exists x, d, conf. split; [by apply elem_of_cons; right | done].
  - destruct (updateSecret_update_shape _ _ _ _ Hstep) as (d & conf & Hd & -> & Hne).
    destruct (Updater.update_fault u _).
    + cbn [fst]. rewrite list_elem_of_singleton. intros ->.
      exists secret, d, conf. split; [by apply elem_of_cons; left | done].
    + destruct (Updater.updateSecrets u ns rest) as [w r] eqn:Hw. cbn [fst] in *.
      rewrite elem_of_cons. intros [-> | Hin].
      * exists secret, d, conf. split; [by apply elem_of_cons; left | done].
      * destruct (IH Hin) as (x & d' & conf' & Hx & Hrest).
        exists x, d', conf'. split; [by apply elem_of_cons; right | done].
Qed.

(** X5: every secret [onChange] hands to [Update] is a secret listed in
    one of the namespaces, with a non-nil data map, in which only the
    telegraf.conf entry is replaced, by a text different from the stored
    one.  Name, namespace, labels, annotations and type are kept. *)
Theorem onChange_writes_only_conf u nss s' :
  s' ∈ (Updater.onChange u (Ok nss)).1 ->
  exists ns secrets secret d conf,
    ns ∈ nss /\ Updater.listSecrets u ns = Ok secrets /\ secret ∈ secrets /\
    s_data secret = Some d /\
    s' = Updater.with_data secret (<[ TelegrafSecretDataKey := conf ]> d) /\
    data_get (s_data secret) TelegrafSecretDataKey <> conf.
Proof.
  unfold Updater.onChange. induction nss as [|ns rest IH]; simpl; [by rewrite elem_of_nil|].
  unfold Updater.updateSecretsInNamespace at 1.
  destruct (Updater.listSecrets u ns) as [secrets|e] eqn:Hl.
  - destruct (Updater.updateSecrets u ns secrets) as [w r] eqn:Hw.
    assert (Hshape : s' ∈ w -> exists ns0 secrets0 secret d conf,
      ns0 ∈ ns :: rest /\ Updater.listSecrets u ns0 = Ok secrets0 /\ secret ∈ secrets0 /\
      s_data secret = Some d /\
      s' = Updater.with_data secret (<[ TelegrafSecretDataKey := conf ]> d) /\
      data_get (s_data secret) TelegrafSecretDataKey <> conf).
    { intros Hin. pose proof (updateSecrets_written_shape u ns secrets s') as Hs.
      rewrite Hw in Hs. destruct (Hs Hin) as (x & d & conf & Hx & Hrest).
      exists ns, secrets, x, d, conf. split; [by apply elem_of_cons; left | done]. }
    destruct r; cbn [fst]; try exact Hshape.
    destruct (Updater.updateNamespaces u rest) as [w' r'] eqn:Hw'. cbn [fst] in *.
    rewrite elem_of_app. intros [Hin | Hin]; [by apply Hshape|].
    destruct (IH Hin) as (ns0 & secrets0 & x & d & conf & Hns & Hrest).
    exists ns0, secrets0, x, d, conf. split; [by apply elem_of_cons; right | done].
  - by rewrite elem_of_nil.
Qed.

Lemma parseCustomOrDefaultQuantity_shape E res name custom dflt res' :
  parseCustomOrDefaultQuantity E res name custom dflt = Ok res' ->
  (custom = EmptyString -> res' = res) /\
  (forall q, custom <> EmptyString -> ParseQuantity E custom = None ->
             dflt <> EmptyString -> ParseQuantity E dflt = Some q -> res' = res ++ [(name, q)]) /\
  (res' = res \/ exists q, res' = res ++ [(name, q)]).
Proof.
  unfold parseCustomOrDefaultQuantity.
  destruct (String.eqb_spec custom EmptyString) as [->|Hc].
  - intros [= <-]. split; [done|]. split; [done|]. by left.
  - destruct (ParseQuantity E custom) as [qc|] eqn:Hqc.
    + intros [= <-]. split; [done|]. split; [intros; congruence|]. right; eauto.
    + destruct (String.eqb_spec dflt EmptyString) as [->|Hd].
      * intros [= <-]. split; [done|]. split; [done|]. by left.
      * destruct (ParseQuantity E dflt) as [qd|] eqn:Hqd; [|discriminate].
        intros [= <-]. split; [done|]. split; [intros q _ _ _ [= ->]; done|]. right; eauto.
Qed.

Lemma not_elem_of_singleton_fst (name other : string) (q : Quantity) :
  name <> other -> name ∉ ([(other, q)] : list (string * Quantity)).*1.
Proof. intros Hne. cbn. rewrite list_elem_of_singleton. done. Qed.

(** X8: resource edges of [newContainer].  An annotation with an empty
    value omits that resource, even when the handler has a default.  An
    annotated CPU request that does not parse falls back to the handler's
    default. *)
Theorem newContainer_quantities E h (pod : Pod) containerName c :
  newContainer E h pod containerName = Ok c ->
  let ann := p_annotations pod in
  (ann !! TelegrafRequestsCPU = Some EmptyString -> "cpu" ∉ (c_requests c).*1) /\
  (ann !! TelegrafRequestsMemory = Some EmptyString -> "memory" ∉ (c_requests c).*1) /\
  (ann !! TelegrafLimitsCPU = Some EmptyString -> "cpu" ∉ (c_limits c).*1) /\
  (ann !! TelegrafLimitsMemory = Some EmptyString -> "memory" ∉ (c_limits c).*1) /\
  (forall v q, ann !! TelegrafRequestsCPU = Some v -> v <> EmptyString ->
     ParseQuantity E v = None -> RequestsCPU h <> EmptyString ->
     ParseQuantity E (RequestsCPU h) = Some q -> head (c_requests c) = Some ("cpu", q)).
Proof.
  intros Hc. unfold newContainer, mbind, result_bind in Hc.
  destruct (parseCustomOrDefaultQuantity E [] "cpu" _ (RequestsCPU h)) as [r1|] eqn:H1; [|discriminate].
  destruct (parseCustomOrDefaultQuantity E r1 "memory" _ (RequestsMemory h)) as [r2|] eqn:H2; [|discriminate].
  destruct (parseCustomOrDefaultQuantity E [] "cpu" _ (LimitsCPU h)) as [r3|] eqn:H3; [|discriminate].
  destruct (parseCustomOrDefaultQuantity E r3 "memory" _ (LimitsMemory h)) as [r4|] eqn:H4; [|discriminate].
  injection Hc as <-. cbn [c_requests c_limits].
  apply parseCustomOrDefaultQuantity_shape in H1 as (E1 & F1 & S1).
  apply parseCustomOrDefaultQuantity_shape in H2 as (E2 & F2 & S2).
  apply parseCustomOrDefaultQuantity_shape in H3 as (E3 & F3 & S3).
  apply parseCustomOrDefaultQuantity_shape in H4 as (E4 & F4 & S4).
  split_and!.
  - intros Ha. rewrite Ha in E1. cbn [default] in E1. rewrite E1 in S2 by reflexivity.
    destruct S2 as [-> | [q ->]]; [apply not_elem_of_nil | apply not_elem_of_singleton_fst; discriminate].
  - intros Ha. rewrite Ha in E2. cbn [default] in E2. rewrite E2 by reflexivity.
    destruct S1 as [-> | [q ->]]; [apply not_elem_of_nil | apply not_elem_of_singleton_fst; discriminate].
  - intros Ha. rewrite Ha in E3. cbn [default] in E3. rewrite E3 in S4 by reflexivity.
    destruct S4 as [-> | [q ->]]; [apply not_elem_of_nil | apply not_elem_of_singleton_fst; discriminate].
  - intros Ha. rewrite Ha in E4. cbn [default] in E4. rewrite E4 by reflexivity.
    destruct S3 as [-> | [q ->]]; [apply not_elem_of_nil | apply not_elem_of_singleton_fst; discriminate].
  - intros v q Ha Hv Hpv Hd Hpd. rewrite Ha in F1. cbn [default] in F1.
    rewrite (F1 q Hv Hpv Hd Hpd) in S2. simpl in S2.
    destruct S2 as [-> | [q' ->]]; reflexivity.
Qed.

(* ------------------------------------------------------------------ *)
(** ** Runs of the further properties on the example configuration  *)

Lemma watcher_no_lost_notification_witness :
  In 22%nat [0; 11; 22]%nat /\
  exists w, In w (Watcher.callbacks (Watcher.batchChanges 10 10 [0; 11; 22]%nat)) /\ (22 <= w)%nat.
Proof.
  assert (Hin : In 22%nat [0; 11; 22]%nat) by (simpl; tauto).
  split; [exact Hin | exact (watcher_no_lost_notification 10 10 [0; 11; 22]%nat 22 Hin)].
Defined.

Lemma onChange_stops_at_first_failure_witness :
  Forall (fun n => (Updater.updateSecretsInNamespace Example.failing_updater n).2 = Updater.PassOk) ["a"] /\
  (Updater.updateSecretsInNamespace Example.failing_updater "bad").2 <> Updater.PassOk /\
  Updater.onChange Example.failing_updater (Ok (["a"] ++ "bad" :: ["c"])) =
    (concat (map (fun n => (Updater.updateSecretsInNamespace Example.failing_updater n).1) (["a"] ++ ["bad"])),
     (Updater.updateSecretsInNamespace Example.failing_updater "bad").2).
Proof.
  assert (H1 : Forall (fun n => (Updater.updateSecretsInNamespace Example.failing_updater n).2 = Updater.PassOk) ["a"])
    by (constructor; [reflexivity | constructor]).
  assert (H2 : (Updater.updateSecretsInNamespace Example.failing_updater "bad").2 <> Updater.PassOk)
    by (vm_compute; discriminate).
  split; [exact H1 | split; [exact H2 | exact (onChange_stops_at_first_failure _ ["a"] ["c"] "bad" H1 H2)]].
Defined.

Lemma onChange_all_ok_witness :
  Forall (fun n => (Updater.updateSecretsInNamespace Example.failing_updater n).2 = Updater.PassOk) ["a"; "c"] /\
  Updater.onChange Example.failing_updater (Ok ["a"; "c"]) =
    (concat (map (fun n => (Updater.updateSecretsInNamespace Example.failing_updater n).1) ["a"; "c"]),
     Updater.PassOk).
Proof.
  assert (H1 : Forall (fun n => (Updater.updateSecretsInNamespace Example.failing_updater n).2 = Updater.PassOk) ["a"; "c"])
    by (repeat constructor).
  split; [exact H1 | exact (onChange_all_ok _ ["a"; "c"] H1)].
Defined.

Lemma validated_defaults_newContainer_ok_witness :
  validateRequestsAndLimits Example.collab Example.handler = Ok tt /\
  exists c, newContainer Example.collab Example.handler Example.env_pod "telegraf" = Ok c.
Proof.
  assert (H : validateRequestsAndLimits Example.collab Example.handler = Ok tt) by (vm_compute; reflexivity).
  split; [exact H | exact (validated_defaults_newContainer_ok _ _ H Example.env_pod "telegraf")].
Defined.

Lemma Handle_only_sidecar_secrets_witness :
  (forall name, ("ns", "other") <> ("ns", secretName "telegraf" name) /\
                ("ns", "other") <> ("ns", secretName "telegraf-istio" name)) /\
  (Handle Example.collab {| SidecarHandler := Example.handler; RequireAnnotationsForSecret := true |}
          ∅ (mkRequest Create "app" "ns" (Some Example.port_pod))).2 !! ("ns", "other") = (∅ : store) !! ("ns", "other").
Proof.
  assert (Hk : forall name, ("ns", "other") <> ("ns", secretName "telegraf" name) /\
                            ("ns", "other") <> ("ns", secretName "telegraf-istio" name)).
  { intros name. unfold secretName. split; intros Heq; injection Heq; simpl; discriminate. }
  split; [exact Hk |].
  exact (Handle_only_sidecar_secrets Example.collab
           {| SidecarHandler := Example.handler; RequireAnnotationsForSecret := true |}
           ∅ (mkRequest Create "app" "ns" (Some Example.port_pod)) ("ns", "other") Hk).
Defined.

Lemma Handle_delete_witness :
  req_operation (mkRequest Delete "app" "ns" None) = Delete /\
  (exists message st', Handle Example.collab {| SidecarHandler := Example.handler; RequireAnnotationsForSecret := true |}
                          {[ ("ns", "telegraf-config-app") := Example.pending_secret ]}
                          (mkRequest Delete "app" "ns" None) = (Allowed message, st')).
Proof.
  assert (Hop : req_operation (mkRequest Delete "app" "ns" None) = Delete) by reflexivity.
  split; [exact Hop |].
  exact (proj1 (Handle_delete Example.collab
                  {| SidecarHandler := Example.handler; RequireAnnotationsForSecret := true |}
                  {[ ("ns", "telegraf-config-app") := Example.pending_secret ]}
                  (mkRequest Delete "app" "ns" None) Hop)).
Defined.

Lemma Handle_readmission_idempotent_witness :
  let a := {| SidecarHandler := Example.handler; RequireAnnotationsForSecret := true |} in
  let req := mkRequest Create "app" "ns" (Some Example.port_pod) in
  exists p st1,
    Handle Example.collab a ∅ req = (PatchResponse p, st1) /\
    Handle Example.collab a st1 req = (PatchResponse p, st1).
Proof.
  intros a req.
  set (r := Handle Example.collab a ∅ req).
  exists (match r.1 with PatchResponse p => p | _ => Example.port_pod end), r.2.
  assert (Hr : Handle Example.collab a ∅ req
               = (PatchResponse (match r.1 with PatchResponse p => p | _ => Example.port_pod end), r.2))
    by (subst r; vm_compute; reflexivity).
  split; [exact Hr |].
  apply (Handle_readmission_idempotent Example.collab a ∅ req Example.port_pod _ _);
    [intros; reflexivity | left; reflexivity | reflexivity | discriminate | exact Hr].
Defined.

Lemma Handle_admit_then_delete_witness :
  let a := {| SidecarHandler := Example.handler; RequireAnnotationsForSecret := true |} in
  let req := mkRequest Create "app" "ns" (Some Example.port_pod) in
  (Handle Example.collab a ((Handle Example.collab a ∅ req).2) (mkRequest Delete "app" "ns" None)).2
  = delete ("ns", secretName "telegraf-istio" "app") (delete ("ns", secretName "telegraf" "app") ∅).
Proof.
  intros a req.
  apply (Handle_admit_then_delete Example.collab a ∅ req Example.port_pod);
    [intros; reflexivity | discriminate | reflexivity | discriminate].
Defined.

Lemma newContainer_env_witness :
  exists c, newContainer Example.collab Example.handler Example.env_pod "telegraf" = Ok c /\
    mkEnvVar "STAGE" (EnvValue "prod") ∈ c_env c /\
    mkEnvVar "REGION" (EnvConfigMapKeyRef "cm" "region") ∈ c_env c.
Proof.
  destruct (newContainer Example.collab Example.handler Example.env_pod "telegraf") as [c|e] eqn:Hc;
    [| vm_compute in Hc; discriminate].
  exists c. split; [reflexivity |].
  pose proof (newContainer_env _ _ _ _ _ Hc) as Henv.
  split.
  - apply (proj1 (proj2 (Henv "STAGE"))). reflexivity.
  - apply (proj1 (proj2 (proj2 (Henv "REGION")))). split; reflexivity.
Defined.

Lemma newContainer_quantities_witness :
  exists c, newContainer Example.collab Example.handler Example.env_pod "telegraf" = Ok c /\
    "cpu" ∉ (c_requests c).*1.
Proof.
  destruct (newContainer Example.collab Example.handler Example.env_pod "telegraf") as [c|e] eqn:Hc;
    [| vm_compute in Hc; discriminate].
  exists c. split; [reflexivity |].
  apply (proj1 (newContainer_quantities _ _ _ _ _ Hc)). reflexivity.
Defined.

Lemma istio_empty_quantity_rejected_witness :
  let a := {| SidecarHandler := Example.handler_no_cpu; RequireAnnotationsForSecret := true |} in
  validateRequestsAndLimits Example.collab Example.handler_no_cpu = Ok tt /\
  Handle Example.collab a ∅ (mkRequest Create "app" "ns" (Some Example.istio_pod))
  = (Errored 400 (ErrQuantity EmptyString), ∅).
Proof.
  intros a. split; [vm_compute; reflexivity |].
  apply (istio_empty_quantity_rejected Example.collab a ∅ _ Example.istio_pod);
    [reflexivity | reflexivity | discriminate | reflexivity | vm_compute; reflexivity
    | vm_compute; reflexivity | eexists; vm_compute; reflexivity].
Defined.

Lemma onChange_writes_only_conf_witness :
  let w := (Updater.onChange Example.stale_updater (Ok ["ns"])).1 in
  exists s', s' ∈ w /\
  exists ns secrets secret d conf,
    ns ∈ ["ns"] /\ Updater.listSecrets Example.stale_updater ns = Ok secrets /\ secret ∈ secrets /\
    s_data secret = Some d /\
    s' = Updater.with_data secret (<[ TelegrafSecretDataKey := conf ]> d) /\
    data_get (s_data secret) TelegrafSecretDataKey <> conf.
Proof.
  intros w.
  set (s' := match w with s :: _ => s | [] => Example.stale_secret end).
  assert (Hin : s' ∈ w) by (subst s' w; vm_compute; constructor).
  exists s'. split; [exact Hin |].
  exact (onChange_writes_only_conf Example.stale_updater ["ns"] s' Hin).
Defined.
